(** * The Hack assembler (assembler.py): model and verified properties

    The assembler turns the lines of a Hack assembly program into 16-character
    binary strings.  The model below follows assembler.py function by
    function: Python [str] is [string], Python [int] is [Z], the symbol table
    (a [dict]) is a [gmap string Z], a failed [Parse] (Python [False]) is
    [None], and a raised exception is the [Raise] case of [result]. *)

From Stdlib Require Import ZArith Ascii String.
From stdpp Require Import base tactics option list numbers strings pretty gmap.

(* stdpp's solvers clear hypotheses that may be gone already. *)
#[local] Set Warnings "-clear-no-such-hyp".

Local Open Scope Z_scope.

(** ** Exceptions *)

(** [TypeError_or_ValueError] stands for the exception of a format string
    with directives, which is one of the two, as the directives decide. *)
Inductive exn : Type :=
  | AssemblerError (error_message : string)
  | KeyError (key : string)
  | TypeError
  | TypeError_or_ValueError
  | AttributeError.

Inductive result (A : Type) : Type :=
  | Ok (a : A)
  | Raise (e : exn).
Arguments Ok {A} a.
Arguments Raise {A} e.

Global Instance result_ret : MRet result := λ A, @Ok A.
Global Instance result_bind : MBind result := λ A B f m,
  match m with
  | Ok a => f a
  | Raise e => Raise e
  end.

(** [for x in xs: ys.append(f x)] where [f] may raise. *)
Fixpoint result_mapM {A B} (f : A → result B) (xs : list A) : result (list B) :=
  match xs with
  | [] => Ok []
  | x :: xs => y ← f x; ys ← result_mapM f xs; Ok (y :: ys)
  end.

(** ** Python string primitives *)

Definition newline : ascii := "010"%char.

(** [str.strip()] removes the characters of [string.whitespace]
    (tab, line feed, vertical tab, form feed, carriage return, space),
    which is the set [Ascii.is_space] recognises. *)
Fixpoint lstrip (s : string) : string :=
  match s with
  | String c s' => if Ascii.is_space c then lstrip s' else s
  | EmptyString => EmptyString
  end.

Fixpoint rstrip (s : string) : string :=
  match s with
  | String c s' =>
      match rstrip s' with
      | EmptyString => if Ascii.is_space c then EmptyString else String c EmptyString
      | r => String c r
      end
  | EmptyString => EmptyString
  end.

Definition strip (s : string) : string := rstrip (lstrip s).

(** [line[:line.index("//")]], with [ValueError] handled by returning [line]. *)
Definition RemoveTrailingComment (line : string) : string :=
  match String.index 0 "//" line with
  | Some i => String.substring 0 i line
  | None => line
  end.

Definition is_digit (c : ascii) : bool :=
  let n := nat_of_ascii c in (48 <=? n)%nat && (n <=? 57)%nat.

Definition is_alpha (c : ascii) : bool :=
  let n := nat_of_ascii c in
  ((65 <=? n)%nat && (n <=? 90)%nat) || ((97 <=? n)%nat && (n <=? 122)%nat).

Fixpoint string_forall (P : ascii → bool) (s : string) : bool :=
  match s with
  | String c s' => P c && string_forall P s'
  | EmptyString => true
  end.

(** [str.isdigit()]: at least one character and all of them digits. *)
Definition isdigit (s : string) : bool :=
  match s with
  | EmptyString => false
  | _ => string_forall is_digit s
  end.

Definition digit_value (c : ascii) : Z := Z.of_nat (nat_of_ascii c) - 48.

Fixpoint int_go (acc : Z) (s : string) : Z :=
  match s with
  | String c s' => int_go (10 * acc + digit_value c) s'
  | EmptyString => acc
  end.

(** [int(value)] on a string of decimal digits. *)
Definition int (s : string) : Z := int_go 0 s.

(** [sep.join(xs)]. *)
Fixpoint join (sep : string) (xs : list string) : string :=
  match xs with
  | [] => ""
  | [x] => x
  | x :: xs' => x +:+ sep +:+ join sep xs'
  end.

(** ** Regular expressions

    A matcher returns every way of matching at the front of its input, as
    pairs of the text matched and the text left, in the order in which
    Python's backtracking engine tries them; the match found is the first
    one for which the rest of the pattern succeeds. *)

Definition matcher : Type := string → list (string * string).

Fixpoint strip_prefix (a s : string) : option string :=
  match a, s with
  | EmptyString, _ => Some s
  | String x a', String y s' => if decide (x = y) then strip_prefix a' s' else None
  | String _ _, EmptyString => None
  end.

(** A literal. *)
Definition lit (a : string) : matcher := λ s,
  match strip_prefix a s with
  | Some r => [(a, r)]
  | None => []
  end.

(** A character class. *)
Definition one (P : ascii → bool) : matcher := λ s,
  match s with
  | String c s' => if P c then [(String c EmptyString, s')] else []
  | EmptyString => []
  end.

(** A character class under the greedy [*]: longest match first. *)
Fixpoint star (P : ascii → bool) (s : string) : list (string * string) :=
  match s with
  | String c s' =>
      if P c then (prod_map (String c) id <$> star P s') ++ [("", s)]
      else [("", s)]
  | EmptyString => [("", "")]
  end.

(** Concatenation. *)
Definition seq_ (m1 m2 : matcher) : matcher := λ s,
  '(a, r) ← m1 s; '(b, r') ← m2 r; [(a +:+ b, r')].

(** Alternation [m1|m2|...], tried from left to right. *)
Definition alt (ms : list matcher) : matcher := λ s, m ← ms; m s.

(** [$]: the end of the string, or just before a line feed that ends it. *)
Definition at_end (r : string) : bool :=
  bool_decide (r = "") || bool_decide (r = String newline "").

Definition sym_start (c : ascii) : bool :=
  is_alpha c || bool_decide (c = "_"%char) || bool_decide (c = "$"%char)
  || bool_decide (c = "."%char) || bool_decide (c = ":"%char).

Definition sym_char (c : ascii) : bool := sym_start c || is_digit c.

(** [[a-zA-Z_\$\.:][a-zA-Z0-9_\$\.:]*] *)
Definition _RE_SYMBOL : matcher := seq_ (one sym_start) (star sym_char).

(** ** Instructions *)

(** The value of an [AInstruction]: an [int] or a [str]. *)
Inductive value : Type :=
  | VInt (n : Z)
  | VStr (s : string).

(** Instances of the five instruction classes.  [PyNone] is Python's [None],
    which [ParseInstruction] returns if its loop ends without a result. *)
Inductive Instruction : Type :=
  | AInstruction (value : value)
  | CInstruction (dest comp jump : string)
  | LInstruction (value : string)
  | EmptyInstruction
  | ErrorInstruction (line : string)
  | PyNone.

Global Instance value_eq_dec : EqDecision value.
Proof. solve_decision. Defined.
Global Instance Instruction_eq_dec : EqDecision Instruction.
Proof. solve_decision. Defined.

(** *** AInstruction *)

(** [^@(\d*|SYMBOL)$]; the result is [group(1)] of the match. *)
Definition _RE_AINSTRUCTION (s : string) : option string :=
  head ('(_, r0) ← lit "@" s;
        '(g1, r1) ← alt [star is_digit; _RE_SYMBOL] r0;
        if at_end r1 then [g1] else []).

Definition AInstruction__ToBinary15_step (st : string * Z) (i : Z) : string * Z :=
  let '(result, number) := st in
  (pretty (number `mod` 2) +:+ result, number `div` 2).

Definition AInstruction__ToBinary15 (number : Z) : string :=
  (foldl AInstruction__ToBinary15_step ("", number) (seqZ 0 15)).1.

(** On a [str] value, [number % 2] is string formatting.  A string without
    "%" has no place for the argument, which raises [TypeError].  A string
    with "%" has directives: a bad or unfinished one raises [ValueError],
    one that cannot take the argument raises [TypeError], and if the
    formatting succeeds, [number / 2] raises [TypeError]. *)
Definition AInstruction_ToBinary (v : value) : result string :=
  match v with
  | VInt n => Ok ("0" +:+ AInstruction__ToBinary15 n)
  | VStr s =>
      if string_forall (λ c, negb (bool_decide (c = "%"%char))) s
      then Raise TypeError
      else Raise TypeError_or_ValueError
  end.

Definition AInstruction__ParseValue (value : string) : option Instruction :=
  if isdigit value then
    let int_value := int value in
    if bool_decide (0 ≤ int_value < 1 ≪ 15) then Some (AInstruction (VInt int_value))
    else None
  else Some (AInstruction (VStr value)).

Definition AInstruction_Parse (line : string) : option Instruction :=
  match _RE_AINSTRUCTION (strip (RemoveTrailingComment line)) with
  | Some g1 => AInstruction__ParseValue g1
  | None => None
  end.

(** *** CInstruction *)

Definition _RE_DEST_alternatives : list string :=
  ["M"; "D"; "MD"; "A"; "AM"; "AD"; "AMD"].

Definition _RE_JUMP_alternatives : list string :=
  ["JGT"; "JEQ"; "JGE"; "JLT"; "JNE"; "JLE"; "JMP"].

Definition _RE_COMP_alternatives : list string :=
  ["0"; "1"; "-1"; "D"; "A"; "!D"; "!A"; "-D"; "-A"; "D+1"; "A+1"; "D-1";
   "A-1"; "D+A"; "D-A"; "A-D"; "D&A"; "D|A";
   "M"; "!M"; "-M"; "M+1"; "M-1"; "D+M"; "D-M"; "M-D"; "D&M"; "D|M"].

(** [(?:(M|D|MD|A|AM|AD|AMD)=)?]: the group and the text left; the group is
    [None] when the optional part is skipped, which is tried last. *)
Definition _RE_DEST (s : string) : list (option string * string) :=
  ('(g, r) ← alt (lit <$> _RE_DEST_alternatives) s;
   '(_, r') ← lit "=" r; [(Some g, r')]) ++ [(None, s)].

(** [(?:;(JGT|JEQ|JGE|JLT|JNE|JLE|JMP))?] *)
Definition _RE_JUMP (s : string) : list (option string * string) :=
  ('(_, r) ← lit ";" s;
   '(g, r') ← alt (lit <$> _RE_JUMP_alternatives) r; [(Some g, r')]) ++ [(None, s)].

Definition _RE_COMP : matcher := alt (lit <$> _RE_COMP_alternatives).

(** [^%s%s%s$ % (_RE_DEST, _RE_COMP, _RE_JUMP)]; the result holds the three
    groups of the match. *)
Definition _RE_CINSTRUCTION (s : string)
    : option (option string * string * option string) :=
  head ('(g1, r1) ← _RE_DEST s;
        '(g2, r2) ← _RE_COMP r1;
        '(g3, r3) ← _RE_JUMP r2;
        if at_end r3 then [(g1, g2, g3)] else []).

Definition _COMP_TABLE : gmap string string :=
  list_to_map [
    ("0", "0101010");
    ("1", "0111111");
    ("-1", "0111010");
    ("D", "0001100");
    ("A", "0110000");
    ("!D", "0001101");
    ("!A", "0110001");
    ("-D", "0001111");
    ("D+1", "0011111");
    ("A+1", "0110111");
    ("D-1", "0001110");
    ("A-1", "0110010");
    ("D+A", "0000010");
    ("D-A", "0010011");
    ("A-D", "0000111");
    ("D&A", "0000000");
    ("D|A", "0010101");
    ("M", "1110000");
    ("!M", "1110001");
    ("-M", "1110011");
    ("M+1", "1110111");
    ("M-1", "1110010");
    ("D+M", "1000010");
    ("D-M", "1010011");
    ("M-D", "1000111");
    ("D&M", "1000000");
    ("D|M", "1010101")
  ].

Definition _DEST_TABLE : gmap string string :=
  list_to_map [
    ("", "000");
    ("M", "001");
    ("D", "010");
    ("MD", "011");
    ("A", "100");
    ("AM", "101");
    ("AD", "110");
    ("AMD", "111")
  ].

Definition _JUMP_TABLE : gmap string string :=
  list_to_map [
    ("", "000");
    ("JGT", "001");
    ("JEQ", "010");
    ("JGE", "011");
    ("JLT", "100");
    ("JNE", "101");
    ("JLE", "110");
    ("JMP", "111")
  ].

(** [table[key]], which raises [KeyError] on a missing key. *)
Definition getitem {V} (table : gmap string V) (key : string) : result V :=
  match table !! key with
  | Some v => Ok v
  | None => Raise (KeyError key)
  end.

Definition CInstruction_ToBinary (dest comp jump : string) : result string :=
  c ← getitem _COMP_TABLE comp;
  d ← getitem _DEST_TABLE dest;
  j ← getitem _JUMP_TABLE jump;
  Ok ("111" +:+ c +:+ d +:+ j).

(** [match.group(i) if match.group(i) else ""] *)
Definition group_or_empty (g : option string) : string :=
  match g with
  | Some (String c s) => String c s
  | _ => ""
  end.

Definition CInstruction__ParseMatch
    (m : option string * string * option string) : Instruction :=
  let '(g1, g2, g3) := m in
  let dest := group_or_empty g1 in
  let comp := g2 in
  let jump := group_or_empty g3 in
  CInstruction dest comp jump.

Definition CInstruction_Parse (line : string) : option Instruction :=
  match _RE_CINSTRUCTION (strip (RemoveTrailingComment line)) with
  | Some m => Some (CInstruction__ParseMatch m)
  | None => None
  end.

(** *** LInstruction *)

(** [^\((SYMBOL)\)$] *)
Definition _RE_LINSTRUCTION (s : string) : option string :=
  head ('(_, r0) ← lit "(" s;
        '(g1, r1) ← _RE_SYMBOL r0;
        '(_, r2) ← lit ")" r1;
        if at_end r2 then [g1] else []).

Definition LInstruction_Parse (line : string) : option Instruction :=
  match _RE_LINSTRUCTION (strip (RemoveTrailingComment line)) with
  | Some g1 => Some (LInstruction g1)
  | None => None
  end.

(** *** EmptyInstruction and ErrorInstruction *)

Definition EmptyInstruction_Parse (line : string) : option Instruction :=
  let stripped_line := strip (RemoveTrailingComment line) in
  if bool_decide (stripped_line = "") then Some EmptyInstruction else None.

Definition ErrorInstruction_Parse (line : string) : option Instruction :=
  Some (ErrorInstruction line).

(** ** Parsing a program *)

Definition _INSTRUCTIONS : list (string → option Instruction) :=
  [AInstruction_Parse;
   CInstruction_Parse;
   LInstruction_Parse;
   EmptyInstruction_Parse;
   ErrorInstruction_Parse].

(** The loop of [ParseInstruction] over a list of instruction classes. *)
Fixpoint ParseInstruction_loop
    (instructions : list (string → option Instruction)) (line : string)
    : Instruction :=
  match instructions with
  | instruction :: rest =>
      match instruction line with
      | Some result => result
      | None => ParseInstruction_loop rest line
      end
  | [] => PyNone
  end.

Definition ParseInstruction (line : string) : Instruction :=
  ParseInstruction_loop _INSTRUCTIONS line.

Section Parse.
(** [os.linesep], which depends on the platform. *)
Variable linesep : string.

(** The body of the loop of [Parse]; the state is [errors] and
    [line_number]. *)
Definition Parse_step (st : list string * Z) (instruction : Instruction)
    : list string * Z :=
  let '(errors, line_number) := st in
  match instruction with
  | ErrorInstruction line =>
      (errors ++ ["Error at line " +:+ pretty line_number +:+ ": " +:+ line],
       line_number + 1)
  | _ => (errors, line_number + 1)
  end.

Definition Parse (program_lines : list string) : result (list Instruction) :=
  let program_instructions := ParseInstruction <$> program_lines in
  let '(errors, _) := foldl Parse_step ([], 1) program_instructions in
  if bool_decide (Z.of_nat (length errors) > 0)
  then Raise (AssemblerError (join linesep errors))
  else Ok program_instructions.
End Parse.

(** ** The symbol table *)

Definition InitialSymbolTable : gmap string Z :=
  let symbol_table : gmap string Z :=
    list_to_map [
      ("SP", 0);
      ("LCL", 1);
      ("ARG", 2);
      ("THIS", 3);
      ("THAT", 4);
      ("SCREEN", 16384);
      ("KBD", 24576)
    ] in
  foldl (λ symbol_table i, <["R" +:+ pretty i := i]> symbol_table)
        symbol_table (seqZ 0 16).

(** The body of the first loop of [AnalyzeSymbols] (labels); the state is
    [symbol_table] and [instruction_address]. *)
Definition resolve_labels_step (st : gmap string Z * Z) (instruction : Instruction)
    : gmap string Z * Z :=
  let '(symbol_table, instruction_address) := st in
  match instruction with
  | LInstruction value => (<[value := instruction_address]> symbol_table, instruction_address)
  | AInstruction _ | CInstruction _ _ _ => (symbol_table, instruction_address + 1)
  | _ => (symbol_table, instruction_address)
  end.

(** The body of the second loop (variables); the state is [symbol_table] and
    [variable_address]. *)
Definition resolve_variables_step (st : gmap string Z * Z) (instruction : Instruction)
    : gmap string Z * Z :=
  let '(symbol_table, variable_address) := st in
  match instruction with
  | AInstruction (VStr value) =>
      match symbol_table !! value with
      | None => (<[value := variable_address]> symbol_table, variable_address + 1)
      | Some _ => (symbol_table, variable_address)
      end
  | _ => (symbol_table, variable_address)
  end.

Definition AnalyzeSymbols (program_instructions : list Instruction) : gmap string Z :=
  let symbol_table := InitialSymbolTable in
  let '(symbol_table, _) :=
    foldl resolve_labels_step (symbol_table, 0) program_instructions in
  let '(symbol_table, _) :=
    foldl resolve_variables_step (symbol_table, 16) program_instructions in
  symbol_table.

(** ** Symbol elimination *)

(** The body of the loop of [StripSymbols]: the instructions it appends to
    [stripped_instructions]. *)
Definition StripSymbols_step (symbol_table : gmap string Z) (instruction : Instruction)
    : result (list Instruction) :=
  match instruction with
  | AInstruction (VStr value) =>
      a ← getitem symbol_table value; Ok [AInstruction (VInt a)]
  | AInstruction (VInt _) => Ok [instruction]
  | CInstruction _ _ _ => Ok [instruction]
  | _ => Ok []
  end.

Fixpoint StripSymbols_loop (symbol_table : gmap string Z)
    (program_instructions : list Instruction) : result (list Instruction) :=
  match program_instructions with
  | [] => Ok []
  | instruction :: rest =>
      appended ← StripSymbols_step symbol_table instruction;
      stripped_instructions ← StripSymbols_loop symbol_table rest;
      Ok (appended ++ stripped_instructions)
  end.

Definition StripSymbols (program_instructions : list Instruction)
    : result (list Instruction) :=
  let symbol_table := AnalyzeSymbols program_instructions in
  StripSymbols_loop symbol_table program_instructions.

(** ** Binary encoding *)

(** [i.ToBinary()]: only [AInstruction] and [CInstruction] have the method. *)
Definition ToBinary (i : Instruction) : result string :=
  match i with
  | AInstruction v => AInstruction_ToBinary v
  | CInstruction dest comp jump => CInstruction_ToBinary dest comp jump
  | _ => Raise AttributeError
  end.

Definition TranslateToBinary (program_instructions : list Instruction)
    : result (list string) :=
  result_mapM ToBinary program_instructions.

Definition Assemble (linesep : string) (program_lines : list string)
    : result (list string) :=
  program_instructions ← Parse linesep program_lines;
  stripped_instructions ← StripSymbols program_instructions;
  TranslateToBinary stripped_instructions.

(** ** Vocabulary of the properties *)

(** The line separator of POSIX platforms. *)
Definition LF : string := String newline "".

(** The [w] low bits of [v], most significant first. *)
Fixpoint binary_be (w : nat) (v : Z) : string :=
  match w with
  | O => ""
  | S w' => String (if Z.testbit v (Z.of_nat w') then "1" else "0")%char (binary_be w' v)
  end.

(** The number a string of binary digits denotes, most significant first. *)
Fixpoint binary_value (acc : Z) (s : string) : Z :=
  match s with
  | String c s' => binary_value (2 * acc + (if decide (c = "1"%char) then 1 else 0)) s'
  | EmptyString => acc
  end.

Definition is_bit (c : ascii) : bool :=
  bool_decide (c = "0"%char) || bool_decide (c = "1"%char).

(** A symbol: a first character that is a letter, [_], [$], [.] or [:],
    followed by any number of those characters and digits. *)
Definition is_symbol (s : string) : bool :=
  match s with
  | String c s' => sym_start c && string_forall sym_char s'
  | EmptyString => false
  end.

(** The destinations and jumps a parsed compute instruction can hold: the
    alternatives of the grammar, and the empty string for a part left out. *)
Definition destinations : list string := "" :: _RE_DEST_alternatives.
Definition jumps : list string := "" :: _RE_JUMP_alternatives.

(** The source text of a compute instruction with the given fields. *)
Definition CInstruction_text (dest comp jump : string) : string :=
  (if decide (dest = "") then "" else dest +:+ "=") +:+ comp
  +:+ (if decide (jump = "") then "" else ";" +:+ jump).

Definition is_ErrorInstruction (i : Instruction) : bool :=
  match i with ErrorInstruction _ => true | _ => false end.

(** The message for the line at position [i] (counting from 0) of the
    program, if the line is invalid. *)
Definition error_message (i : nat) (line : string) : option string :=
  if is_ErrorInstruction (ParseInstruction line)
  then Some ("Error at line " +:+ pretty (Z.of_nat i + 1) +:+ ": " +:+ line)
  else None.

(** The messages for the invalid lines of a program, in the order of the
    lines. *)
Definition error_report (program_lines : list string) : list string :=
  omap id (imap error_message program_lines).

(** The instructions that occupy an address: addressing and compute
    instructions. *)
Definition encodable (i : Instruction) : Prop :=
  match i with
  | AInstruction _ | CInstruction _ _ _ => True
  | _ => False
  end.

Global Instance encodable_dec (i : Instruction) : Decision (encodable i).
Proof. destruct i; apply _. Defined.

(** The number of addressing and compute instructions of a sequence. *)
Definition instruction_count (xs : list Instruction) : Z :=
  Z.of_nat (length (filter encodable xs)).

Definition label_of (i : Instruction) : option string :=
  match i with LInstruction s => Some s | _ => None end.

Definition symbol_of (i : Instruction) : option string :=
  match i with AInstruction (VStr s) => Some s | _ => None end.

(** The symbols declared by the label instructions of a sequence. *)
Definition labels (xs : list Instruction) : gset string :=
  list_to_set (omap label_of xs).

(** The symbols referred to by the addressing instructions of a sequence. *)
Definition symbol_refs (xs : list Instruction) : gset string :=
  list_to_set (omap symbol_of xs).

(** The symbols the second loop adds: those referred to that are neither in
    the initial table nor declared as labels. *)
Definition new_symbols (program refs : list Instruction) : gset string :=
  symbol_refs refs ∖ (dom InitialSymbolTable ∪ labels program).

(** What the eliminator makes of an addressing or compute instruction. *)
Definition resolved_by (t : gmap string Z) (i o : Instruction) : Prop :=
  match i with
  | AInstruction (VStr s) => ∃ a, t !! s = Some a ∧ o = AInstruction (VInt a)
  | _ => o = i
  end.

(** The instructions without symbols: addressing instructions holding an
    integer, and compute instructions. *)
Definition symbol_free (i : Instruction) : Prop :=
  match i with
  | AInstruction (VInt _) | CInstruction _ _ _ => True
  | _ => False
  end.

(** A string that does not end with white space. *)
Definition rstripped (s : string) : Prop :=
  ∀ a c, s = a +:+ String c "" → Ascii.is_space c = false.

(** A binary string of 16 characters. *)
Definition is_word (b : string) : Prop :=
  String.length b = 16%nat ∧ string_forall is_bit b = true.

(** The addressing instructions that hold an integer hold one in range. *)
Definition address_in_range (i : Instruction) : Prop :=
  match i with
  | AInstruction (VInt n) => 0 ≤ n < 2 ^ 15
  | _ => True
  end.

(** A compute instruction with the computation [-A]. *)
Definition is_negated_A (i : Instruction) : bool :=
  match i with
  | CInstruction _ comp _ => bool_decide (comp = "-A")
  | _ => false
  end.

(** The fields of a compute instruction are of the grammar. *)
Definition fields_of_grammar (i : Instruction) : Prop :=
  match i with
  | CInstruction dest comp jump =>
      dest ∈ destinations ∧ comp ∈ _RE_COMP_alternatives ∧ jump ∈ jumps
  | _ => True
  end.

(** A character that is neither white space nor "/". *)
Definition plain_char (c : ascii) : bool :=
  negb (Ascii.is_space c) && negb (bool_decide (c = "/"%char)).

(** The source text of an instruction. *)
Definition Instruction_text (i : Instruction) : string :=
  match i with
  | AInstruction (VInt n) => "@" +:+ pretty n
  | AInstruction (VStr s) => "@" +:+ s
  | CInstruction dest comp jump => CInstruction_text dest comp jump
  | LInstruction s => "(" +:+ s +:+ ")"
  | _ => ""
  end.

(** The instructions of the grammar: an integer in range or a symbol in an
    addressing instruction, a symbol in a label, fields of the grammar in a
    compute instruction. *)
Definition of_grammar (i : Instruction) : Prop :=
  match i with
  | AInstruction (VInt n) => 0 ≤ n < 2 ^ 15
  | AInstruction (VStr s) => is_symbol s = true
  | CInstruction dest comp jump =>
      dest ∈ destinations ∧ comp ∈ _RE_COMP_alternatives ∧ jump ∈ jumps
  | LInstruction s => is_symbol s = true
  | EmptyInstruction => True
  | _ => False
  end.

(** ** Vocabulary of the line classifier *)

(** [code] is [line] without its trailing comment: the text before the
    first occurrence of "//" (no "//" of the line begins before the end of
    [code]), or the whole line when it holds no "//". *)
Definition without_comment (line code : string) : Prop :=
  (∃ comment, line = code +:+ "//" +:+ comment
     ∧ ∀ a b, line = a +:+ "//" +:+ b →
         (String.length code ≤ String.length a)%nat)
  ∨ (code = line ∧ ∀ a b, line ≠ a +:+ "//" +:+ b).

(** A string that does not begin with white space. *)
Definition lstripped (s : string) : Prop :=
  ∀ c r, s = String c r → Ascii.is_space c = false.

(** [s] is [code] without the white space around it. *)
Definition without_white_space (code s : string) : Prop :=
  ∃ ws1 ws2, code = ws1 +:+ s +:+ ws2
    ∧ string_forall Ascii.is_space ws1 = true
    ∧ string_forall Ascii.is_space ws2 = true
    ∧ lstripped s ∧ rstripped s.

(** [s] is what is left of [line] after its trailing comment and then the
    white space around the rest are removed. *)
Definition stripped_text (line s : string) : Prop :=
  ∃ code, without_comment line code ∧ without_white_space code s.

(** The grammar of addressing instructions: "@" and then either digits, at
    least one, that denote a number from 0 to 2^15 - 1, or a symbol.  The
    instruction holds the number or the symbol. *)
Definition Address_grammar (s : string) (v : value) : Prop :=
  ∃ g, s = "@" +:+ g
       ∧ ((isdigit g = true ∧ 0 ≤ int g < 2 ^ 15 ∧ v = VInt (int g))
          ∨ (is_symbol g = true ∧ v = VStr g)).

(** The grammar of compute instructions: a destination and "=", or neither,
    then one of the 28 computations, then ";" and a jump, or neither. *)
Definition Compute_grammar (s dest comp jump : string) : Prop :=
  dest ∈ destinations ∧ comp ∈ _RE_COMP_alternatives ∧ jump ∈ jumps
  ∧ s = CInstruction_text dest comp jump.

(** The grammar of labels: a symbol between "(" and ")". *)
Definition Label_grammar (s g : string) : Prop :=
  s = "(" +:+ g +:+ ")" ∧ is_symbol g = true.

Definition matches_Address (s : string) : Prop := ∃ v, Address_grammar s v.
Definition matches_Compute (s : string) : Prop :=
  ∃ dest comp jump, Compute_grammar s dest comp jump.
Definition matches_Label (s : string) : Prop := ∃ g, Label_grammar s g.
Definition matches_Empty (s : string) : Prop := s = "".

(** ** The test suite of the assembler (assembler_test.py) *)

Module Tests.
Example testParseAInstruction :
  AInstruction_Parse "@123" = Some (AInstruction (VInt 123))
  ∧ AInstruction_Parse "@llama" = Some (AInstruction (VStr "llama"))
  ∧ AInstruction_Parse "@123456789" = None
  ∧ AInstruction_Parse "@1llama" = None.
Proof. by vm_compute. Qed.

Example testParseLInstruction :
  LInstruction_Parse "(foo)" = Some (LInstruction "foo")
  ∧ LInstruction_Parse "(foo123..$$:_)" = Some (LInstruction "foo123..$$:_")
  ∧ LInstruction_Parse "(1abc)" = None
  ∧ LInstruction_Parse "foo" = None.
Proof. by vm_compute. Qed.

Example testParseCInstruction :
  CInstruction_Parse "D=M;JMP" = Some (CInstruction "D" "M" "JMP")
  ∧ CInstruction_Parse "M=M+1" = Some (CInstruction "M" "M+1" "")
  ∧ CInstruction_Parse "0;JMP" = Some (CInstruction "" "0" "JMP")
  ∧ CInstruction_Parse "" = None
  ∧ CInstruction_Parse "@1234" = None
  ∧ CInstruction_Parse "llama" = None.
Proof. by vm_compute. Qed.

Example testParseEmptyInstruction :
  EmptyInstruction_Parse "" = Some EmptyInstruction
  ∧ EmptyInstruction_Parse "   " = Some EmptyInstruction
  ∧ EmptyInstruction_Parse "// I like pie!" = Some EmptyInstruction
  ∧ EmptyInstruction_Parse "@123" = None.
Proof. by vm_compute. Qed.

Example testParseInstruction :
  ParseInstruction "@123" = AInstruction (VInt 123)
  ∧ ParseInstruction "@loop" = AInstruction (VStr "loop")
  ∧ ParseInstruction "M=M+1" = CInstruction "M" "M+1" ""
  ∧ ParseInstruction "// I like pie!" = EmptyInstruction
  ∧ ParseInstruction "(loop)" = LInstruction "loop"
  ∧ ParseInstruction "Blah" = ErrorInstruction "Blah".
Proof. by vm_compute. Qed.

Example testAssemblerError :
  Assemble LF ["I like pie!"]
  = Raise (AssemblerError "Error at line 1: I like pie!").
Proof. by vm_compute. Qed.

Example testAssembleAdd :
  Assemble LF [
    "// Computes R0 = 2 + 3";
    "@2";
    "D=A";
    "@3";
    "D=D+A";
    "@0";
    "M=D"]
  = Ok [
    "0000000000000010";
    "1110110000010000";
    "0000000000000011";
    "1110000010010000";
    "0000000000000000";
    "1110001100001000"].
Proof. by vm_compute. Qed.

Example testAssembleMax :
  Assemble LF [
    "// Computes M[2] = max(M[0], M[1])  where M stands for RAM";
    "@0";
    "D=M              // D=first number";
    "@1";
    "D=D-M            // D=first number - second number";
    "@OUTPUT_FIRST";
    "D;JGT            // if D>0 (first is greater) goto output_first";
    "@1";
    "D=M              // D=second number";
    "@OUTPUT_D";
    "0;JMP            // goto output_d";
    "(OUTPUT_FIRST)";
    "@0";
    "D=M              // D=first number";
    "(OUTPUT_D)";
    "@2";
    "M=D              // M[2]=D (greatest number)";
    "(INFINITE_LOOP)";
    "@INFINITE_LOOP";
    "0;JMP            // infinite loop"]
  = Ok [
    "0000000000000000";
    "1111110000010000";
    "0000000000000001";
    "1111010011010000";
    "0000000000001010";
    "1110001100000001";
    "0000000000000001";
    "1111110000010000";
    "0000000000001100";
    "1110101010000111";
    "0000000000000000";
    "1111110000010000";
    "0000000000000010";
    "1110001100001000";
    "0000000000001110";
    "1110101010000111"].
Proof. by vm_compute. Qed.

Example testAssembleRect :
  Assemble LF [
    "// Draws a rectangle at the top left corner of the screen.";
    "// The rectangle is 16 pixels wide and R0 pixels high.";
    "@0";
    "D=M";
    "@INFINITE_LOOP";
    "D;JLE";
    "@counter";
    "M=D";
    "@SCREEN";
    "D=A";
    "@address";
    "M=D";
    "(LOOP)";
    "@address";
    "A=M";
    "M=-1";
    "@address";
    "D=M";
    "@32";
    "D=D+A";
    "@address";
    "M=D";
    "@counter";
    "MD=M-1";
    "@LOOP";
    "D;JGT";
    "(INFINITE_LOOP)";
    "@INFINITE_LOOP";
    "0;JMP"]
  = Ok [
    "0000000000000000";
    "1111110000010000";
    "0000000000010111";
    "1110001100000110";
    "0000000000010000";
    "1110001100001000";
    "0100000000000000";
    "1110110000010000";
    "0000000000010001";
    "1110001100001000";
    "0000000000010001";
    "1111110000100000";
    "1110111010001000";
    "0000000000010001";
    "1111110000010000";
    "0000000000100000";
    "1110000010010000";
    "0000000000010001";
    "1110001100001000";
    "0000000000010000";
    "1111110010011000";
    "0000000000001010";
    "1110001100000001";
    "0000000000010111";
    "1110101010000111"].
Proof. by vm_compute. Qed.
End Tests.

(** * Properties *)

(** ** Strings *)

Lemma string_app_nil_l (s : string) : "" +:+ s = s.
Proof. reflexivity. Qed.

Lemma string_app_cons (c : ascii) (s t : string) :
  String c s +:+ t = String c (s +:+ t).
Proof. reflexivity. Qed.

Lemma string_app_nil_r (s : string) : s +:+ "" = s.
Proof. induction s as [|c s IH]; [done|]. by rewrite string_app_cons, IH. Qed.

Lemma string_app_assoc (s t u : string) : (s +:+ t) +:+ u = s +:+ (t +:+ u).
Proof. induction s as [|c s IH]; [done|]. by rewrite !string_app_cons, IH. Qed.

Lemma string_length_app (s t : string) :
  String.length (s +:+ t) = (String.length s + String.length t)%nat.
Proof. induction s as [|c s IH]; [done|]. rewrite string_app_cons. simpl. by rewrite IH. Qed.

(** ** Encoding of addressing instructions *)

Lemma binary_be_length w v : String.length (binary_be w v) = w.
Proof. induction w as [|w IH]; simpl; congruence. Qed.

Lemma binary_be_bits w v : string_forall is_bit (binary_be w v) = true.
Proof. induction w as [|w IH]; simpl; [done|]. rewrite IH. by destruct (Z.testbit _ _). Qed.

Lemma binary_be_snoc w v :
  binary_be w (v `div` 2) +:+ pretty (v `mod` 2) = binary_be (S w) v.
Proof.
  induction w as [|w IH].
  - cbn [binary_be]. change (Z.of_nat 0) with 0.
    rewrite string_app_nil_l, <-Z.bit0_mod.
    by destruct (Z.testbit v 0); vm_compute.
  - cbn [binary_be]. rewrite string_app_cons, IH.
    rewrite Z.div2_bits by lia.
    by rewrite <-Nat2Z.inj_succ.
Qed.

Lemma ToBinary15_loop (l : list Z) (acc : string) (n : Z) :
  foldl AInstruction__ToBinary15_step (acc, n) l
  = (binary_be (length l) n +:+ acc, n `div` 2 ^ Z.of_nat (length l)).
Proof.
  revert acc n. induction l as [|x l IH]; intros acc n.
  - simpl. by rewrite string_app_nil_l, Z.div_1_r.
  - cbn [foldl AInstruction__ToBinary15_step length]. rewrite IH. f_equal.
    + by rewrite <-binary_be_snoc, string_app_assoc.
    + rewrite Nat2Z.inj_succ, Z.pow_succ_r, Z.div_div by lia. done.
Qed.

(** A symbolic value has no encoding: whatever the string, the first
    step of the conversion raises. *)
Lemma AInstruction_ToBinary_str (s : string) (b : string) :
  AInstruction_ToBinary (VStr s) ≠ Ok b.
Proof. unfold AInstruction_ToBinary. by case (string_forall _ s). Qed.

Ltac no_str_encoding :=
  match goal with
  | H : ToBinary (AInstruction (VStr ?s)) = Ok ?b |- _ =>
      by destruct (AInstruction_ToBinary_str s b)
  end.

Lemma ToBinary15_binary_be (n : Z) : AInstruction__ToBinary15 n = binary_be 15 n.
Proof.
  unfold AInstruction__ToBinary15. rewrite ToBinary15_loop.
  cbn [fst]. by rewrite length_seqZ, string_app_nil_r.
Qed.

Lemma binary_value_cons acc c s :
  binary_value acc (String c s)
  = binary_value (2 * acc + (if decide (c = "1"%char) then 1 else 0)) s.
Proof. reflexivity. Qed.

Lemma binary_value_be (w : nat) (acc v : Z) :
  binary_value acc (binary_be w v) = acc * 2 ^ Z.of_nat w + v `mod` 2 ^ Z.of_nat w.
Proof.
  revert acc. induction w as [|w IH]; intros acc.
  - simpl. rewrite Z.mod_1_r. lia.
  - cbn [binary_be binary_value]. rewrite IH.
    rewrite Nat2Z.inj_succ, Z.pow_succ_r by lia.
    assert (0 < 2 ^ Z.of_nat w) by (apply Z.pow_pos_nonneg; lia).
    rewrite (Z.mul_comm 2 (2 ^ Z.of_nat w)), Z.rem_mul_r by lia.
    rewrite <-Z.testbit_spec' by lia.
    destruct (Z.testbit v (Z.of_nat w)); simpl; lia.
Qed.

(** C4: for 0 <= v < 2^15 the encoding of an addressing instruction holding
    [v] is the 16-character string of binary digits made of '0' and the 15
    bits of [v], most significant first; read back as a binary number it
    denotes [v]. *)
Theorem AInstruction_ToBinary_binary (v : Z) :
  0 ≤ v < 2 ^ 15 →
  ∃ s, AInstruction_ToBinary (VInt v) = Ok s
       ∧ s = "0" +:+ binary_be 15 v
       ∧ String.length s = 16%nat
       ∧ string_forall is_bit s = true
       ∧ binary_value 0 s = v.
Proof.
  intros Hv. exists ("0" +:+ binary_be 15 v). split_and!.
  - unfold AInstruction_ToBinary. by rewrite ToBinary15_binary_be.
  - reflexivity.
  - rewrite string_length_app, binary_be_length. reflexivity.
  - rewrite string_app_cons, string_app_nil_l. cbn [string_forall].
    by rewrite binary_be_bits.
  - rewrite string_app_cons, string_app_nil_l, binary_value_cons.
    rewrite decide_False by done. rewrite binary_value_be.
    change (Z.of_nat 15) with 15. rewrite Z.mod_small; lia.
Qed.

Lemma AInstruction_ToBinary_binary_witness :
  ∃ s, AInstruction_ToBinary (VInt 24576) = Ok s
       ∧ s = "0" +:+ binary_be 15 24576
       ∧ String.length s = 16%nat
       ∧ string_forall is_bit s = true
       ∧ binary_value 0 s = 24576.
Proof. apply (AInstruction_ToBinary_binary 24576). lia. Defined.

(** ** Matchers *)

Lemma strip_prefix_Some (a s r : string) :
  strip_prefix a s = Some r ↔ s = a +:+ r.
Proof.
  revert s. induction a as [|x a IH]; intros s.
  - simpl. rewrite string_app_nil_l. naive_solver.
  - rewrite string_app_cons. destruct s as [|y s]; simpl; [naive_solver|].
    case_decide; subst.
    + rewrite IH. naive_solver.
    + naive_solver.
Qed.

Lemma lit_elem (a s g r : string) :
  (g, r) ∈ lit a s ↔ g = a ∧ s = a +:+ r.
Proof.
  unfold lit. destruct (strip_prefix a s) as [r'|] eqn:E.
  - apply strip_prefix_Some in E. rewrite list_elem_of_singleton.
    split; [naive_solver|]. intros [-> Hs]. rewrite E in Hs.
    by apply (inj (String.app a)) in Hs as ->.
  - split; [by intros ?%elem_of_nil|]. intros [_ Hs].
    apply strip_prefix_Some in Hs. congruence.
Qed.

Lemma one_elem (P : ascii → bool) (s g r : string) :
  (g, r) ∈ one P s ↔ ∃ c, P c = true ∧ g = String c "" ∧ s = String c r.
Proof.
  destruct s as [|c s]; simpl.
  - split; [by intros ?%elem_of_nil|naive_solver].
  - destruct (P c) eqn:E.
    + rewrite list_elem_of_singleton. naive_solver.
    + split; [by intros ?%elem_of_nil|]. intros (c'&?&?&[= <- <-]). congruence.
Qed.

Lemma star_elem (P : ascii → bool) (s g r : string) :
  (g, r) ∈ star P s ↔ s = g +:+ r ∧ string_forall P g = true.
Proof.
  revert g. induction s as [|c s IH]; intros g.
  - simpl. rewrite list_elem_of_singleton. split.
    + by intros [= -> ->].
    + intros [Hs _]. destruct g; [|done].
      rewrite string_app_nil_l in Hs. by subst.
  - simpl. destruct (P c) eqn:E.
    + rewrite elem_of_app, list_elem_of_fmap, list_elem_of_singleton. split.
      * intros [([g' r']&[= -> ->]&[-> Hg]%IH)|[= -> ->]]; [|done].
        rewrite string_app_cons. simpl. by rewrite E, Hg.
      * destruct g as [|c' g]; [rewrite string_app_nil_l; naive_solver|].
        rewrite string_app_cons. simpl. intros [[= <- ->] [_ Hg]%andb_true_iff].
        left. exists (g, r). split; [done|]. by apply IH.
    + rewrite list_elem_of_singleton. split; [by intros [= -> ->]|].
      destruct g as [|c' g]; [rewrite string_app_nil_l; naive_solver|].
      rewrite string_app_cons. simpl. intros [[= <- ->] [? _]%andb_true_iff].
      congruence.
Qed.

Lemma alt_lit_elem (alts : list string) (s g r : string) :
  (g, r) ∈ alt (lit <$> alts) s ↔ g ∈ alts ∧ s = g +:+ r.
Proof.
  unfold alt. rewrite list_elem_of_bind. split.
  - intros (m&Hm&(a&->&Ha)%list_elem_of_fmap). apply lit_elem in Hm as [-> ->]. done.
  - intros [Hg ->]. exists (lit g). split; [by apply lit_elem|].
    by apply list_elem_of_fmap_2.
Qed.

(** The first character of a symbol is any character of a symbol but a
    digit. *)
Lemma sym_start_not_digit (c : ascii) :
  sym_start c = sym_char c && negb (is_digit c).
Proof. destruct c as [[] [] [] [] [] [] [] []]; by vm_compute. Qed.

Lemma _RE_SYMBOL_elem (s g r : string) :
  (g, r) ∈ _RE_SYMBOL s ↔ is_symbol g = true ∧ s = g +:+ r.
Proof.
  unfold _RE_SYMBOL, seq_. rewrite list_elem_of_bind. split.
  - intros ([a r1]&H&(c&Hc&->&->)%one_elem).
    apply list_elem_of_bind in H as ([b r2]&H&[-> Hb]%star_elem).
    apply list_elem_of_singleton in H as [= -> ->].
    rewrite !string_app_cons, string_app_nil_l. simpl. by rewrite Hc, Hb.
  - destruct g as [|c g]; [naive_solver|]. simpl.
    intros [[Hc Hg]%andb_true_iff ->]. rewrite string_app_cons.
    exists (String c "", g +:+ r). split; [|apply one_elem; eauto].
    apply list_elem_of_bind. exists (g, r). split; [|by apply star_elem].
    by apply list_elem_of_singleton.
Qed.

(** ** Compute instructions *)

Lemma _RE_DEST_elem (s : string) (g : option string) (r : string) :
  (g, r) ∈ _RE_DEST s ↔
    (∃ d, g = Some d ∧ d ∈ _RE_DEST_alternatives ∧ s = d +:+ "=" +:+ r)
    ∨ (g = None ∧ r = s).
Proof.
  unfold _RE_DEST. rewrite elem_of_app, list_elem_of_singleton, list_elem_of_bind.
  split.
  - intros [([d r1]&H&[Hd ->]%alt_lit_elem)|H]; [left|right; by simplify_eq].
    apply list_elem_of_bind in H as ([e r2]&H&[-> ->]%lit_elem).
    apply list_elem_of_singleton in H as [= -> ->]. eauto.
  - intros [(d&->&Hd&->)|[-> ->]]; [left|by right].
    exists (d, "=" +:+ r). split; [|by apply alt_lit_elem].
    apply list_elem_of_bind. exists ("=", r). split; [|by apply lit_elem].
    by apply list_elem_of_singleton.
Qed.

Lemma _RE_JUMP_elem (s : string) (g : option string) (r : string) :
  (g, r) ∈ _RE_JUMP s ↔
    (∃ j, g = Some j ∧ j ∈ _RE_JUMP_alternatives ∧ s = ";" +:+ j +:+ r)
    ∨ (g = None ∧ r = s).
Proof.
  unfold _RE_JUMP. rewrite elem_of_app, list_elem_of_singleton, list_elem_of_bind.
  split.
  - intros [([e r1]&H&[-> ->]%lit_elem)|H]; [left|right; by simplify_eq].
    apply list_elem_of_bind in H as ([j r2]&H&[Hj ->]%alt_lit_elem).
    apply list_elem_of_singleton in H as [= -> ->]. eauto.
  - intros [(j&->&Hj&->)|[-> ->]]; [left|by right].
    exists (";", j +:+ r). split; [|by apply lit_elem].
    apply list_elem_of_bind. exists (j, r). split; [|by apply alt_lit_elem].
    by apply list_elem_of_singleton.
Qed.

Lemma group_or_empty_elem (g : option string) (alts : list string) :
  g = None ∨ (∃ a, g = Some a ∧ a ∈ alts) → group_or_empty g ∈ "" :: alts.
Proof.
  intros [->|(a&->&Ha)]; [by left|].
  destruct a; [by left|by right].
Qed.

(** The fields of a parsed compute instruction come from the grammar. *)
Lemma CInstruction_Parse_fields (line : string) (i : Instruction) :
  CInstruction_Parse line = Some i →
  ∃ dest comp jump, i = CInstruction dest comp jump
    ∧ dest ∈ destinations ∧ comp ∈ _RE_COMP_alternatives ∧ jump ∈ jumps.
Proof.
  unfold CInstruction_Parse.
  destruct (_RE_CINSTRUCTION _) as [[[g1 g2] g3]|] eqn:E; [|done].
  intros [= <-]. apply head_Some_elem_of in E.
  apply list_elem_of_bind in E as ([g1' r1]&E&H1).
  apply list_elem_of_bind in E as ([g2' r2]&E&[H2 _]%alt_lit_elem).
  apply list_elem_of_bind in E as ([g3' r3]&E&H3).
  apply _RE_DEST_elem in H1. apply _RE_JUMP_elem in H3.
  destruct (at_end r3); [|by apply elem_of_nil in E].
  apply list_elem_of_singleton in E as [= -> -> ->].
  eexists _, _, _. split; [reflexivity|]. split_and!; [|done|].
  - apply group_or_empty_elem. naive_solver.
  - apply group_or_empty_elem. naive_solver.
Qed.

(** Every combination of a destination, a computation and a jump of the
    grammar is parsed into the compute instruction with these fields. *)
Lemma CInstruction_Parse_complete (dest comp jump : string) :
  dest ∈ destinations → comp ∈ _RE_COMP_alternatives → jump ∈ jumps →
  ParseInstruction (CInstruction_text dest comp jump) = CInstruction dest comp jump.
Proof.
  intros Hd Hc Hj.
  assert (Forall (λ d, Forall (λ c, Forall (λ j,
    ParseInstruction (CInstruction_text d c j) = CInstruction d c j)
    jumps) _RE_COMP_alternatives) destinations) as H.
  { apply (bool_decide_unpack _). by vm_compute. }
  rewrite Forall_forall in H. specialize (H _ Hd).
  rewrite Forall_forall in H. specialize (H _ Hc).
  rewrite Forall_forall in H. by apply H.
Qed.

(** Every computation of the grammar but [-A] has a 7-character code. *)
Lemma _COMP_TABLE_lookup (comp : string) :
  comp ∈ _RE_COMP_alternatives → comp ≠ "-A" →
  ∃ c, _COMP_TABLE !! comp = Some c ∧ String.length c = 7%nat.
Proof.
  intros Hc.
  assert (Forall (λ comp, comp ≠ "-A" →
    ∃ c, _COMP_TABLE !! comp = Some c ∧ String.length c = 7%nat)
    _RE_COMP_alternatives) as H.
  { unfold _RE_COMP_alternatives. repeat apply Forall_cons_2; try apply Forall_nil_2;
      try (intros _; eexists; split; [by vm_compute|reflexivity]).
    done. }
  rewrite Forall_forall in H. by apply H.
Qed.

Lemma _DEST_TABLE_lookup (dest : string) :
  dest ∈ destinations →
  ∃ d, _DEST_TABLE !! dest = Some d ∧ String.length d = 3%nat.
Proof.
  intros Hd.
  assert (Forall (λ dest,
    ∃ d, _DEST_TABLE !! dest = Some d ∧ String.length d = 3%nat) destinations) as H.
  { unfold destinations, _RE_DEST_alternatives.
    repeat apply Forall_cons_2; try apply Forall_nil_2;
      (eexists; split; [by vm_compute|reflexivity]). }
  rewrite Forall_forall in H. by apply H.
Qed.

Lemma _JUMP_TABLE_lookup (jump : string) :
  jump ∈ jumps →
  ∃ j, _JUMP_TABLE !! jump = Some j ∧ String.length j = 3%nat.
Proof.
  intros Hj.
  assert (Forall (λ jump,
    ∃ j, _JUMP_TABLE !! jump = Some j ∧ String.length j = 3%nat) jumps) as H.
  { unfold jumps, _RE_JUMP_alternatives.
    repeat apply Forall_cons_2; try apply Forall_nil_2;
      (eexists; split; [by vm_compute|reflexivity]). }
  rewrite Forall_forall in H. by apply H.
Qed.

(** X8: apart from the computation [-A], every compute instruction the parser
    accepts is encoded as "111" followed by the codes of its computation,
    destination and jump in the three tables, 16 characters in all. *)
Lemma CInstruction_ToBinary_tables (line : string) (i : Instruction) :
  CInstruction_Parse line = Some i →
  ∃ dest comp jump, i = CInstruction dest comp jump ∧
    (comp ≠ "-A" →
     ∃ c d j, _COMP_TABLE !! comp = Some c ∧ _DEST_TABLE !! dest = Some d
       ∧ _JUMP_TABLE !! jump = Some j
       ∧ String.length c = 7%nat ∧ String.length d = 3%nat ∧ String.length j = 3%nat
       ∧ ToBinary i = Ok ("111" +:+ c +:+ d +:+ j)
       ∧ String.length ("111" +:+ c +:+ d +:+ j) = 16%nat).
Proof.
  intros (dest&comp&jump&->&Hd&Hc&Hj)%CInstruction_Parse_fields.
  exists dest, comp, jump. split; [done|]. intros Hne.
  destruct (_COMP_TABLE_lookup comp Hc Hne) as (c&Ec&Lc).
  destruct (_DEST_TABLE_lookup dest Hd) as (d&Ed&Ld).
  destruct (_JUMP_TABLE_lookup jump Hj) as (j&Ej&Lj).
  exists c, d, j. split_and!; try done.
  - unfold ToBinary, CInstruction_ToBinary, getitem. by rewrite Ec, Ed, Ej.
  - rewrite !string_length_app, Lc, Ld, Lj. reflexivity.
Qed.

Lemma CInstruction_ToBinary_tables_witness :
  ∃ dest comp jump, CInstruction "D" "M" "JMP" = CInstruction dest comp jump ∧
    (comp ≠ "-A" →
     ∃ c d j, _COMP_TABLE !! comp = Some c ∧ _DEST_TABLE !! dest = Some d
       ∧ _JUMP_TABLE !! jump = Some j
       ∧ String.length c = 7%nat ∧ String.length d = 3%nat ∧ String.length j = 3%nat
       ∧ ToBinary (CInstruction "D" "M" "JMP") = Ok ("111" +:+ c +:+ d +:+ j)
       ∧ String.length ("111" +:+ c +:+ d +:+ j) = 16%nat).
Proof. apply (CInstruction_ToBinary_tables "D=M;JMP"). by vm_compute. Defined.

(** C1: the parser accepts the computation [-A], which the grammar lists
    among its 28 expressions, but the table of computation codes has no
    entry for it, so encoding the instruction raises [KeyError]. *)
Theorem CInstruction_negated_A_KeyError :
  "-A" ∈ _RE_COMP_alternatives
  ∧ ParseInstruction "D=-A" = CInstruction "D" "-A" ""
  ∧ _COMP_TABLE !! "-A" = None
  ∧ ToBinary (CInstruction "D" "-A" "") = Raise (KeyError "-A")
  ∧ ∀ linesep, Assemble linesep ["D=-A"] = Raise (KeyError "-A").
Proof.
  split_and!; try by vm_compute.
  unfold _RE_COMP_alternatives. set_solver.
Qed.

(** ** Parsing a program *)

(** The error instruction of a line holds the line itself. *)
Lemma ParseInstruction_Error (line l : string) :
  ParseInstruction line = ErrorInstruction l → l = line.
Proof.
  unfold ParseInstruction, _INSTRUCTIONS, ParseInstruction_loop.
  destruct (AInstruction_Parse line) as [i|] eqn:EA.
  { unfold AInstruction_Parse, AInstruction__ParseValue in EA.
    repeat case_match; naive_solver. }
  destruct (CInstruction_Parse line) as [i|] eqn:EC.
  { unfold CInstruction_Parse, CInstruction__ParseMatch in EC.
    repeat case_match; naive_solver. }
  destruct (LInstruction_Parse line) as [i|] eqn:EL.
  { unfold LInstruction_Parse in EL. repeat case_match; naive_solver. }
  destruct (EmptyInstruction_Parse line) as [i|] eqn:EE.
  { unfold EmptyInstruction_Parse in EE. repeat case_match; naive_solver. }
  unfold ErrorInstruction_Parse. congruence.
Qed.

Lemma Parse_loop (lines : list string) (errors : list string) (k : nat) :
  foldl Parse_step (errors, Z.of_nat k + 1) (ParseInstruction <$> lines)
  = (errors ++ omap id (imap (λ i, error_message (k + i)) lines),
     Z.of_nat (k + length lines) + 1).
Proof.
  revert errors k. induction lines as [|line lines IH]; intros errors k.
  - simpl. by rewrite app_nil_r, Nat.add_0_r.
  - rewrite fmap_cons, imap_cons. cbn [foldl length].
    assert (∀ errors', Parse_step (errors, Z.of_nat k + 1) (ParseInstruction line) = 
             (errors', Z.of_nat k + 1 + 1) →
            foldl Parse_step (errors', Z.of_nat (S k) + 1) (ParseInstruction <$> lines) =
     (errors ++ omap id (error_message (k + 0) line :: imap ((λ i, error_message (k + i)) ∘ S) lines),
        Z.of_nat (k + S (length lines)) + 1)) as Hstep.
    { intros errors' Herr. rewrite IH. f_equal; [|f_equal; lia].
      rewrite (imap_ext ((λ i, error_message (k + i)) ∘ S)
                        (λ i, error_message (S k + i))); last first.
      { intros i x _. simpl. f_equal. lia. }
      unfold error_message at 2. rewrite Nat.add_0_r.
      unfold Parse_step in Herr.
      destruct (ParseInstruction line) as [| | | |l|] eqn:E; simpl;
        simplify_eq; try done.
      apply ParseInstruction_Error in E as ->. by rewrite <-app_assoc. }
    replace (Z.of_nat (S k) + 1) with (Z.of_nat k + 1 + 1) in Hstep by lia.
    unfold Parse_step at 2. destruct (ParseInstruction line); by apply Hstep.
Qed.

Lemma error_report_nil (lines : list string) :
  error_report lines = [] ↔
  Forall (λ line, is_ErrorInstruction (ParseInstruction line) = false) lines.
Proof.
  unfold error_report.
  assert (∀ k, omap id (imap (λ i, error_message (k + i)) lines) = [] ↔
    Forall (λ line, is_ErrorInstruction (ParseInstruction line) = false) lines) as H.
  { induction lines as [|line lines IH]; intros k; [done|].
    rewrite imap_cons, Forall_cons. cbn [omap]. unfold error_message at 1.
    destruct (is_ErrorInstruction (ParseInstruction line)); simpl.
    - naive_solver.
    - rewrite <-(IH (S k)).
      rewrite (imap_ext ((λ i, error_message (k + i)) ∘ S)
                        (λ i, error_message (S k + i))); [naive_solver|].
      intros i x _. simpl. f_equal. lia. }
  apply (H 0%nat).
Qed.

(** What [Parse] returns, it returns for every line. *)
Lemma Parse_Ok_inv (linesep : string) (program_lines : list string)
    (instructions : list Instruction) :
  Parse linesep program_lines = Ok instructions →
  instructions = ParseInstruction <$> program_lines.
Proof.
  unfold Parse. destruct (foldl _ _ _) as [errors n].
  case_bool_decide; [done|]. by intros [= <-].
Qed.

(** A program without invalid lines is parsed. *)
Lemma Parse_valid (linesep : string) (program_lines : list string) :
  Forall (λ line, is_ErrorInstruction (ParseInstruction line) = false)
         program_lines →
  Parse linesep program_lines = Ok (ParseInstruction <$> program_lines).
Proof.
  intros H. unfold Parse. change 1 with (Z.of_nat 0 + 1). rewrite Parse_loop.
  rewrite app_nil_l.
  change (omap id (imap (λ i, error_message (0 + i)) program_lines))
    with (error_report program_lines).
  by rewrite (proj2 (error_report_nil program_lines) H).
Qed.

(** C5: parsing a program raises [AssemblerError] exactly when some line is
    classified as an error instruction.  The message then joins, in the order
    of the lines, one message "Error at line N: text" for each invalid line,
    [N] being the position of the line counted from 1 over all lines and
    [text] the line as given.  Otherwise the instructions of all lines are
    returned. *)
Theorem Parse_collects_errors (linesep : string) (program_lines : list string) :
  Parse linesep program_lines =
    if decide (Exists (λ line, is_ErrorInstruction (ParseInstruction line) = true)
                      program_lines)
    then Raise (AssemblerError (join linesep (error_report program_lines)))
    else Ok (ParseInstruction <$> program_lines).
Proof.
  unfold Parse. change 1 with (Z.of_nat 0 + 1). rewrite Parse_loop.
  rewrite app_nil_l.
  change (omap id (imap (λ i, error_message (0 + i)) program_lines))
    with (error_report program_lines).
  case_decide as HE.
  - destruct (error_report program_lines) as [|m ms] eqn:E; [|done].
    apply error_report_nil in E. rewrite Forall_forall in E.
    apply Exists_exists in HE as (line&Hin&Herr).
    specialize (E _ Hin). congruence.
  - assert (error_report program_lines = []) as ->; [|done].
    apply error_report_nil, Forall_forall. intros line Hin.
    destruct (is_ErrorInstruction (ParseInstruction line)) eqn:Herr; [|done].
    destruct HE. apply Exists_exists. eauto.
Qed.

(** Blank, comment and label lines count in the numbering of the lines. *)
Example Parse_numbering :
  Parse LF ["@1"; ""; "D=D+"; "// comment"; "(LOOP)"; "@-1"]
  = Raise (AssemblerError
      ("Error at line 3: D=D+" +:+ LF +:+ "Error at line 6: @-1")).
Proof. by vm_compute. Qed.

(** ** The symbol table *)

Lemma instruction_count_nil : instruction_count [] = 0.
Proof. reflexivity. Qed.

Lemma instruction_count_cons (i : Instruction) (xs : list Instruction) :
  instruction_count (i :: xs)
  = (if decide (encodable i) then 1 else 0) + instruction_count xs.
Proof.
  unfold instruction_count. rewrite filter_cons.
  case_decide; simpl length; lia.
Qed.

Lemma instruction_count_app (xs ys : list Instruction) :
  instruction_count (xs ++ ys) = instruction_count xs + instruction_count ys.
Proof. unfold instruction_count. rewrite filter_app, length_app. lia. Qed.

Lemma instruction_count_nonneg (xs : list Instruction) : 0 ≤ instruction_count xs.
Proof. unfold instruction_count. lia. Qed.

Lemma elem_of_labels (s : string) (xs : list Instruction) :
  s ∈ labels xs ↔ LInstruction s ∈ xs.
Proof.
  unfold labels. rewrite elem_of_list_to_set, list_elem_of_omap. split.
  - intros (i&Hi&Hs). destruct i; simplify_eq/=. done.
  - intros Hi. by exists (LInstruction s).
Qed.

Lemma elem_of_symbol_refs (s : string) (xs : list Instruction) :
  s ∈ symbol_refs xs ↔ AInstruction (VStr s) ∈ xs.
Proof.
  unfold symbol_refs. rewrite elem_of_list_to_set, list_elem_of_omap. split.
  - intros (i&Hi&Hs). destruct i as [[]| | | | |]; simplify_eq/=. done.
  - intros Hi. by exists (AInstruction (VStr s)).
Qed.

Lemma labels_cons (i : Instruction) (xs : list Instruction) :
  labels (i :: xs) = match i with LInstruction s => {[s]} ∪ labels xs | _ => labels xs end.
Proof. unfold labels. by destruct i. Qed.

Lemma symbol_refs_cons (i : Instruction) (xs : list Instruction) :
  symbol_refs (i :: xs)
  = match i with AInstruction (VStr s) => {[s]} ∪ symbol_refs xs | _ => symbol_refs xs end.
Proof. unfold symbol_refs. by destruct i as [[]| | | | |]. Qed.

Lemma labels_app (xs ys : list Instruction) : labels (xs ++ ys) = labels xs ∪ labels ys.
Proof. unfold labels. by rewrite omap_app, list_to_set_app_L. Qed.

Lemma symbol_refs_app (xs ys : list Instruction) :
  symbol_refs (xs ++ ys) = symbol_refs xs ∪ symbol_refs ys.
Proof. unfold symbol_refs. by rewrite omap_app, list_to_set_app_L. Qed.

(** *** The first loop: labels *)

Section labels_loop.
Implicit Types (t : gmap string Z) (a : Z) (xs : list Instruction).

Lemma labels_loop_address t a xs :
  (foldl resolve_labels_step (t, a) xs).2 = a + instruction_count xs.
Proof.
  revert t a. induction xs as [|i xs IH]; intros t a.
  - rewrite instruction_count_nil. simpl. lia.
  - rewrite instruction_count_cons. cbn [foldl].
    destruct i; cbn [resolve_labels_step]; rewrite IH;
      (rewrite decide_True by done) || (rewrite decide_False by (by intros [])); lia.
Qed.

Lemma labels_loop_not_declared t a xs s :
  s ∉ labels xs → (foldl resolve_labels_step (t, a) xs).1 !! s = t !! s.
Proof.
  revert t a. induction xs as [|i xs IH]; intros t a Hs; [done|].
  rewrite labels_cons in Hs. cbn [foldl].
  destruct i; cbn [resolve_labels_step]; rewrite IH; try done; [|set_solver].
  apply lookup_insert_ne. set_solver.
Qed.

Lemma labels_loop_dom t a xs :
  dom (foldl resolve_labels_step (t, a) xs).1 = dom t ∪ labels xs.
Proof.
  revert t a. induction xs as [|i xs IH]; intros t a.
  - simpl. unfold labels. simpl. set_solver.
  - rewrite labels_cons. cbn [foldl].
    destruct i; cbn [resolve_labels_step]; rewrite IH; try done.
    rewrite dom_insert_L. set_solver.
Qed.

(** The entry of a label is the address at its last declaration. *)
Lemma labels_loop_last t a pre s post :
  s ∉ labels post →
  (foldl resolve_labels_step (t, a) (pre ++ LInstruction s :: post)).1 !! s
  = Some (a + instruction_count pre).
Proof.
  intros Hs. rewrite foldl_app. cbn [foldl].
  destruct (foldl resolve_labels_step (t, a) pre) as [t1 a1] eqn:E.
  cbn [resolve_labels_step]. rewrite labels_loop_not_declared by done.
  rewrite lookup_insert_eq. f_equal.
  change a1 with (t1, a1).2. rewrite <-E. apply labels_loop_address.
Qed.

(** Every label is declared a last time. *)
Lemma labels_last_declaration xs s :
  s ∈ labels xs →
  ∃ pre post, xs = pre ++ LInstruction s :: post ∧ s ∉ labels post.
Proof.
  induction xs as [|i xs IH]; [unfold labels; set_solver|].
  intros Hs. destruct (decide (s ∈ labels xs)) as [Hin|Hnin].
  - destruct (IH Hin) as (pre&post&->&Hpost). by exists (i :: pre), post.
  - rewrite labels_cons in Hs. destruct i; try done.
    exists [], xs. split; [|done]. simpl. f_equal. f_equal. set_solver.
Qed.
End labels_loop.

(** *** The second loop: variables *)

Section variables_loop.
Implicit Types (t : gmap string Z) (v : Z) (xs : list Instruction).

Lemma variables_loop_dom t v xs :
  dom (foldl resolve_variables_step (t, v) xs).1 = dom t ∪ symbol_refs xs.
Proof.
  revert t v. induction xs as [|i xs IH]; intros t v.
  - simpl. unfold symbol_refs. simpl. set_solver.
  - rewrite symbol_refs_cons. cbn [foldl].
    destruct i as [[n|s]| | | | |]; cbn [resolve_variables_step]; try by rewrite IH.
    destruct (t !! s) eqn:E; rewrite IH.
    + apply (elem_of_dom_2 t) in E. set_solver.
    + rewrite dom_insert_L. set_solver.
Qed.

(** An entry of the table is never overwritten. *)
Lemma variables_loop_keeps t v xs s a :
  t !! s = Some a → (foldl resolve_variables_step (t, v) xs).1 !! s = Some a.
Proof.
  revert t v. induction xs as [|i xs IH]; intros t v Hs; [done|].
  cbn [foldl].
  destruct i as [[n|s']| | | | |]; cbn [resolve_variables_step]; try by apply IH.
  destruct (t !! s') eqn:E; apply IH; [done|].
  rewrite lookup_insert_ne; [done|]. congruence.
Qed.

(** The address counter has advanced by the number of symbols added. *)
Lemma variables_loop_address t v xs :
  (foldl resolve_variables_step (t, v) xs).2
  = v + Z.of_nat (size (symbol_refs xs ∖ dom t)).
Proof.
  revert t v. induction xs as [|i xs IH]; intros t v.
  - simpl. unfold symbol_refs. simpl.
    replace (∅ ∖ dom t) with (∅ : gset string) by set_solver.
    rewrite size_empty. lia.
  - rewrite symbol_refs_cons. cbn [foldl].
    destruct i as [[n|s]| | | | |]; cbn [resolve_variables_step]; try by rewrite IH.
    destruct (t !! s) eqn:E; rewrite IH.
    + apply (elem_of_dom_2 t) in E. do 3 f_equal. set_solver.
    + apply (not_elem_of_dom_2 t) in E. rewrite dom_insert_L.
      replace (({[s]} ∪ symbol_refs xs) ∖ dom t)
        with ({[s]} ∪ symbol_refs xs ∖ ({[s]} ∪ dom t)); last first.
      { apply set_eq. intros x. destruct (decide (x = s)); set_solver. }
      rewrite (size_union (C:=gset string) {[s]}) by set_solver.
      rewrite size_singleton. lia.
Qed.

(** A symbol that is not in the table gets, at its first reference, the
    first address not yet given to the new symbols referred to before. *)
Lemma variables_loop_first t v pre s post :
  s ∉ dom t → s ∉ symbol_refs pre →
  (foldl resolve_variables_step (t, v) (pre ++ AInstruction (VStr s) :: post)).1 !! s
  = Some (v + Z.of_nat (size (symbol_refs pre ∖ dom t))).
Proof.
  intros Ht Hpre. rewrite foldl_app. cbn [foldl].
  pose proof (variables_loop_dom t v pre) as Hdom.
  pose proof (variables_loop_address t v pre) as Haddr.
  destruct (foldl resolve_variables_step (t, v) pre) as [t1 v1].
  cbn [fst snd] in Hdom, Haddr. cbn [resolve_variables_step].
  assert (t1 !! s = None) as ->.
  { apply not_elem_of_dom. rewrite Hdom. set_solver. }
  apply variables_loop_keeps. rewrite lookup_insert_eq. by rewrite Haddr.
Qed.

(** Every symbol referred to is referred to a first time. *)
Lemma symbol_refs_first_reference xs s :
  s ∈ symbol_refs xs →
  ∃ pre post, xs = pre ++ AInstruction (VStr s) :: post ∧ s ∉ symbol_refs pre.
Proof.
  induction xs as [|i xs IH]; [unfold symbol_refs; set_solver|].
  intros Hs. destruct (decide (i = AInstruction (VStr s))) as [->|Hne].
  - exists [], xs. split; [done|]. unfold symbol_refs. set_solver.
  - assert (s ∈ symbol_refs xs) as Hin.
    { rewrite symbol_refs_cons in Hs. destruct i as [[n|s']| | | | |]; try done.
      apply elem_of_union in Hs as [Hs%elem_of_singleton|]; congruence. }
    destruct (IH Hin) as (pre&post&->&Hpre). exists (i :: pre), post.
    split; [done|]. rewrite symbol_refs_cons.
    destruct i as [[n|s']| | | | |]; try done.
    apply not_elem_of_union. split; [|done].
    rewrite elem_of_singleton. congruence.
Qed.
End variables_loop.

(** *** The table of a program *)

Lemma AnalyzeSymbols_unfold (xs : list Instruction) :
  AnalyzeSymbols xs
  = (foldl resolve_variables_step
       ((foldl resolve_labels_step (InitialSymbolTable, 0) xs).1, 16) xs).1.
Proof.
  unfold AnalyzeSymbols.
  destruct (foldl resolve_labels_step _ xs) as [t1 a1]. cbn [fst].
  by destruct (foldl resolve_variables_step _ xs).
Qed.

Lemma AnalyzeSymbols_dom (xs : list Instruction) :
  dom (AnalyzeSymbols xs) = dom InitialSymbolTable ∪ labels xs ∪ symbol_refs xs.
Proof. by rewrite AnalyzeSymbols_unfold, variables_loop_dom, labels_loop_dom. Qed.

(** A label is mapped to the number of addressing and compute instructions
    before its last declaration. *)
Lemma AnalyzeSymbols_label (pre post : list Instruction) (s : string) :
  s ∉ labels post →
  AnalyzeSymbols (pre ++ LInstruction s :: post) !! s = Some (instruction_count pre).
Proof.
  intros Hs. rewrite AnalyzeSymbols_unfold. apply variables_loop_keeps.
  by rewrite labels_loop_last.
Qed.

(** A new symbol is mapped to 16 plus the number of new symbols referred to
    before its first reference. *)
Lemma AnalyzeSymbols_variable (pre post : list Instruction) (s : string) :
  let xs := pre ++ AInstruction (VStr s) :: post in
  s ∉ labels xs → s ∉ dom InitialSymbolTable → s ∉ symbol_refs pre →
  AnalyzeSymbols xs !! s = Some (16 + Z.of_nat (size (new_symbols xs pre))).
Proof.
  intros xs. rewrite AnalyzeSymbols_unfold. unfold new_symbols, xs.
  generalize InitialSymbolTable. intros t0 Hl Hi Hpre.
  rewrite variables_loop_first; [|rewrite labels_loop_dom; set_solver|done].
  by rewrite labels_loop_dom.
Qed.

(** Any other symbol has its entry of the initial table, if it has one. *)
Lemma AnalyzeSymbols_initial (xs : list Instruction) (s : string) :
  s ∉ labels xs → s ∈ dom InitialSymbolTable ∨ s ∉ symbol_refs xs →
  AnalyzeSymbols xs !! s = InitialSymbolTable !! s.
Proof.
  rewrite AnalyzeSymbols_unfold. generalize InitialSymbolTable. intros t0 Hl Hs.
  destruct (t0 !! s) as [a|] eqn:E.
  - apply variables_loop_keeps. by rewrite labels_loop_not_declared.
  - apply not_elem_of_dom. rewrite variables_loop_dom, labels_loop_dom.
    apply not_elem_of_dom in E. set_solver.
Qed.

(** C10: a label symbol is mapped to the number of addressing and compute
    instructions before its last declaration, however many times it is
    declared before: a later declaration replaces the entry of an earlier
    one. *)
Theorem AnalyzeSymbols_last_declaration_wins
    (pre post : list Instruction) (s : string) :
  s ∉ labels post →
  AnalyzeSymbols (pre ++ LInstruction s :: post) !! s = Some (instruction_count pre).
Proof. apply AnalyzeSymbols_label. Qed.

Lemma AnalyzeSymbols_last_declaration_wins_witness :
  AnalyzeSymbols ([LInstruction "x"; CInstruction "" "0" ""; AInstruction (VInt 7)]
                  ++ LInstruction "x" :: [CInstruction "D" "A" ""]) !! "x"
  = Some (instruction_count
            [LInstruction "x"; CInstruction "" "0" ""; AInstruction (VInt 7)]).
Proof. apply AnalyzeSymbols_last_declaration_wins. by vm_compute. Defined.

(** The claim C2 as it is stated fails for a label declared twice: the entry
    of the symbol is not the address at its first declaration. *)
Lemma AnalyzeSymbols_label_counterexample :
  let xs := [LInstruction "x"; CInstruction "" "0" ""; LInstruction "x"] in
  ¬ (∀ pre s post, xs = pre ++ LInstruction s :: post →
                   AnalyzeSymbols xs !! s = Some (instruction_count pre)).
Proof.
  intros xs H.
  specialize (H [] "x" [CInstruction "" "0" ""; LInstruction "x"] eq_refl).
  by vm_compute in H.
Qed.

(** C2 (amended): the symbol table of a program maps
    (a) each label symbol to the number of addressing and compute
        instructions before the last label instruction that declares it;
    (b) each symbol referred to by an addressing instruction that is neither
        in the initial table nor a label to 16 plus the number of such
        symbols referred to before its first reference;
    (c) any other symbol to its entry of the initial table, if it has one. *)
Theorem AnalyzeSymbols_resolves (xs : list Instruction) :
  (∀ pre s post,
     xs = pre ++ LInstruction s :: post → s ∉ labels post →
     AnalyzeSymbols xs !! s = Some (instruction_count pre))
  ∧ (∀ pre s post,
       xs = pre ++ AInstruction (VStr s) :: post →
       s ∉ dom InitialSymbolTable → s ∉ labels xs → s ∉ symbol_refs pre →
       AnalyzeSymbols xs !! s = Some (16 + Z.of_nat (size (new_symbols xs pre))))
  ∧ (∀ s,
       s ∉ labels xs → s ∈ dom InitialSymbolTable ∨ s ∉ symbol_refs xs →
       AnalyzeSymbols xs !! s = InitialSymbolTable !! s).
Proof.
  split_and!.
  - intros pre s post -> Hs. by apply AnalyzeSymbols_label.
  - intros pre s post -> Hi Hl Hpre. by apply AnalyzeSymbols_variable.
  - apply AnalyzeSymbols_initial.
Qed.

Lemma AnalyzeSymbols_resolves_witness :
  let xs := [AInstruction (VStr "i"); LInstruction "LOOP"; CInstruction "D" "M" "";
             AInstruction (VStr "j"); AInstruction (VStr "LOOP");
             CInstruction "" "0" "JMP"; AInstruction (VStr "j");
             AInstruction (VStr "KBD")] in
  AnalyzeSymbols xs !! "LOOP" = Some 1
  ∧ AnalyzeSymbols xs !! "j" = Some 17
  ∧ AnalyzeSymbols xs !! "KBD" = Some 24576.
Proof.
  intros xs. destruct (AnalyzeSymbols_resolves xs) as (Hlabel&Hvariable&Hinitial).
  split_and!.
  - apply (Hlabel [AInstruction (VStr "i")] "LOOP"
             [CInstruction "D" "M" ""; AInstruction (VStr "j");
              AInstruction (VStr "LOOP"); CInstruction "" "0" "JMP";
              AInstruction (VStr "j"); AInstruction (VStr "KBD")]).
    + reflexivity.
    + by vm_compute.
  - apply (Hvariable
             [AInstruction (VStr "i"); LInstruction "LOOP"; CInstruction "D" "M" ""]
             "j"
             [AInstruction (VStr "LOOP"); CInstruction "" "0" "JMP";
              AInstruction (VStr "j"); AInstruction (VStr "KBD")]).
    + reflexivity.
    + by vm_compute.
    + by vm_compute.
    + by vm_compute.
  - rewrite (Hinitial "KBD").
    + by vm_compute.
    + by vm_compute.
    + left. by vm_compute.
Defined.

(** ** Symbol elimination *)

Lemma StripSymbols_loop_resolved (t : gmap string Z) (xs : list Instruction) :
  symbol_refs xs ⊆ dom t →
  ∃ out, StripSymbols_loop t xs = Ok out
         ∧ Forall2 (resolved_by t) (filter encodable xs) out
         ∧ Forall symbol_free out.
Proof.
  induction xs as [|i xs IH]; intros Hsub.
  - exists []. by split_and!; constructor.
  - rewrite symbol_refs_cons in Hsub. destruct IH as (out&Eout&Hout&Hfree).
    { destruct i as [[n|s]| | | | |]; set_solver. }
    cbn [StripSymbols_loop]. rewrite Eout. rewrite filter_cons.
    destruct i as [[n|s]|dest comp jump|s| |line|];
      cbn [StripSymbols_step]; try (exists out; by split_and!).
    + exists (AInstruction (VInt n) :: out). rewrite decide_True by done.
      split_and!; [done|by constructor|by constructor].
    + assert (is_Some (t !! s)) as [a Ea] by (apply elem_of_dom; set_solver).
      unfold getitem. rewrite Ea. exists (AInstruction (VInt a) :: out).
      rewrite decide_True by done.
      split_and!; [done| |by constructor]. constructor; [|done]. by exists a.
    + exists (CInstruction dest comp jump :: out). rewrite decide_True by done.
      split_and!; [done|by constructor|by constructor].
Qed.

Lemma StripSymbols_loop_symbol_free (t : gmap string Z) (xs : list Instruction) :
  Forall symbol_free xs → StripSymbols_loop t xs = Ok xs.
Proof.
  induction 1 as [|i xs Hi _ IH]; [done|].
  cbn [StripSymbols_loop]. rewrite IH.
  by destruct i as [[n|s]| | | | |].
Qed.

Lemma StripSymbols_resolved (xs : list Instruction) :
  ∃ out, StripSymbols xs = Ok out
         ∧ Forall2 (resolved_by (AnalyzeSymbols xs)) (filter encodable xs) out
         ∧ Forall symbol_free out.
Proof.
  apply StripSymbols_loop_resolved. rewrite AnalyzeSymbols_dom.
  apply union_subseteq_r.
Qed.

(** C3: symbol elimination always returns a sequence; it holds, in their
    order, the addressing and compute instructions of the input and nothing
    else, with each addressing instruction that holds a symbol replaced by one
    holding the address of the symbol in the symbol table of the program, and
    the other instructions as they are.  So it has as many instructions as
    the input has addressing and compute instructions. *)
Theorem StripSymbols_keeps_encodable (xs : list Instruction) :
  ∃ out, StripSymbols xs = Ok out
         ∧ Forall2 (resolved_by (AnalyzeSymbols xs)) (filter encodable xs) out
         ∧ Z.of_nat (length out) = instruction_count xs.
Proof.
  destruct (StripSymbols_resolved xs) as (out&E&Hout&_).
  exists out. split_and!; [done|done|].
  unfold instruction_count. by rewrite (Forall2_length _ _ _ Hout).
Qed.

(** ** Programs without symbols *)

Lemma labels_loop_symbol_free (t : gmap string Z) (a : Z) (xs : list Instruction) :
  Forall symbol_free xs → (foldl resolve_labels_step (t, a) xs).1 = t.
Proof.
  intros H. revert a. induction H as [|i xs Hi _ IH]; intros a; [done|].
  cbn [foldl]. destruct i as [[n|s]| | | | |]; try done; apply IH.
Qed.

Lemma variables_loop_symbol_free (t : gmap string Z) (v : Z) (xs : list Instruction) :
  Forall symbol_free xs → (foldl resolve_variables_step (t, v) xs).1 = t.
Proof.
  induction 1 as [|i xs Hi _ IH]; [done|].
  cbn [foldl]. destruct i as [[n|s]| | | | |]; try done; apply IH.
Qed.

(** The symbol table of a program without symbols is the initial table. *)
Lemma AnalyzeSymbols_symbol_free (xs : list Instruction) :
  Forall symbol_free xs → AnalyzeSymbols xs = InitialSymbolTable.
Proof.
  intros H. rewrite AnalyzeSymbols_unfold. generalize InitialSymbolTable. intros t0.
  by rewrite variables_loop_symbol_free, labels_loop_symbol_free.
Qed.

(** C9: eliminating the symbols of the result of symbol elimination returns
    that result again, and its symbol table is the initial one: nothing is
    added to it. *)
Theorem StripSymbols_idempotent (xs : list Instruction) :
  ∃ out, StripSymbols xs = Ok out
         ∧ StripSymbols out = Ok out
         ∧ AnalyzeSymbols out = InitialSymbolTable.
Proof.
  destruct (StripSymbols_resolved xs) as (out&E&_&Hfree).
  exists out. split_and!; [done| |by apply AnalyzeSymbols_symbol_free].
  by apply StripSymbols_loop_symbol_free.
Qed.

(** ** The range of the addresses *)

(** An integer that an addressing instruction is parsed with is in range. *)
Lemma ParseInstruction_literal_range (line : string) (n : Z) :
  ParseInstruction line = AInstruction (VInt n) → 0 ≤ n < 2 ^ 15.
Proof.
  unfold ParseInstruction, _INSTRUCTIONS, ParseInstruction_loop.
  destruct (AInstruction_Parse line) as [i|] eqn:EA.
  { unfold AInstruction_Parse, AInstruction__ParseValue in EA.
    intros ->. repeat case_match; simplify_eq.
    by match goal with H : bool_decide _ = true |- _ =>
      apply bool_decide_eq_true_1 in H end. }
  destruct (CInstruction_Parse line) as [i|] eqn:EC.
  { unfold CInstruction_Parse, CInstruction__ParseMatch in EC.
    repeat case_match; naive_solver. }
  destruct (LInstruction_Parse line) as [i|] eqn:EL.
  { unfold LInstruction_Parse in EL. repeat case_match; naive_solver. }
  destruct (EmptyInstruction_Parse line) as [i|] eqn:EE.
  { unfold EmptyInstruction_Parse in EE. repeat case_match; naive_solver. }
  done.
Qed.

Lemma InitialSymbolTable_range (s : string) (a : Z) :
  InitialSymbolTable !! s = Some a → 0 ≤ a ≤ 24576.
Proof.
  assert (map_Forall (λ _ a, 0 ≤ a ≤ 24576) InitialSymbolTable) as H.
  { apply (bool_decide_unpack _). by vm_compute. }
  apply H.
Qed.

Lemma new_symbols_size_lt (xs pre : list Instruction) (s : string) :
  s ∉ dom InitialSymbolTable → s ∉ labels xs →
  s ∈ symbol_refs xs → s ∉ symbol_refs pre → symbol_refs pre ⊆ symbol_refs xs →
  (size (new_symbols xs pre) < size (new_symbols xs xs))%nat.
Proof.
  unfold new_symbols. generalize (dom InitialSymbolTable). intros D Hi Hl Hxs Hpre Hsub.
  apply subset_size. split; [set_solver|].
  intros Hsub'. apply Hpre. 
  assert (s ∈ symbol_refs xs ∖ (D ∪ labels xs)) as Hs by set_solver.
  apply Hsub' in Hs. set_solver.
Qed.

(** The addresses of the symbol table: those of the initial table, the
    addresses of instructions, and the addresses given to new symbols. *)
Lemma AnalyzeSymbols_range (xs : list Instruction) (s : string) (a : Z) :
  AnalyzeSymbols xs !! s = Some a →
  0 ≤ a ∧ (a ≤ 24576 ∨ a ≤ instruction_count xs
           ∨ a < 16 + Z.of_nat (size (new_symbols xs xs))).
Proof.
  intros Ha. destruct (decide (s ∈ labels xs)) as [Hl|Hl].
  { destruct (labels_last_declaration xs s Hl) as (pre&post&->&Hpost).
    rewrite (AnalyzeSymbols_label pre post s Hpost) in Ha. injection Ha as <-.
    rewrite instruction_count_app.
    pose proof (instruction_count_nonneg pre).
    pose proof (instruction_count_nonneg (LInstruction s :: post)). lia. }
  destruct (decide (s ∈ dom InitialSymbolTable)) as [Hi|Hi].
  { rewrite (AnalyzeSymbols_initial xs s Hl (or_introl Hi)) in Ha.
    apply InitialSymbolTable_range in Ha. lia. }
  destruct (decide (s ∈ symbol_refs xs)) as [Hr|Hr].
  - destruct (symbol_refs_first_reference xs s Hr) as (pre&post&E&Hpre).
    pose proof (AnalyzeSymbols_variable pre post s) as Hv. cbv zeta in Hv.
    rewrite <-E in Hv. rewrite (Hv Hl Hi Hpre) in Ha. injection Ha as <-.
    assert (size (new_symbols xs pre) < size (new_symbols xs xs))%nat; [|lia].
    apply new_symbols_size_lt with s; [exact Hi|exact Hl|exact Hr|exact Hpre|].
    rewrite E, symbol_refs_app. apply union_subseteq_l.
  - rewrite (AnalyzeSymbols_initial xs s Hl (or_intror Hr)) in Ha.
    apply InitialSymbolTable_range in Ha. lia.
Qed.

(** The addressing instructions of the result of symbol elimination hold
    integers: those of the program, and addresses of the symbol table. *)
Lemma StripSymbols_values (xs out : list Instruction) (v : value) :
  StripSymbols xs = Ok out → AInstruction v ∈ out →
  ∃ n, v = VInt n
       ∧ (AInstruction (VInt n) ∈ xs ∨ ∃ s, AnalyzeSymbols xs !! s = Some n).
Proof.
  intros E Hv. destruct (StripSymbols_resolved xs) as (out'&E'&Hout&_).
  assert (out' = out) as -> by congruence.
  destruct (proj1 (list_elem_of_lookup _ _) Hv) as [k Hk].
  destruct (Forall2_lookup_r _ _ _ _ _ Hout Hk) as (i&Hi&Hres).
  apply list_elem_of_lookup_2, list_elem_of_filter in Hi as [_ Hi].
  destruct i as [[n|s]| | | | |]; simpl in Hres; try done.
  - injection Hres as ->. eauto.
  - destruct Hres as (a&Ha&[= ->]). eauto.
Qed.

(** C8 (amended): for an error-free program with fewer than 2^15 addressing
    and compute instructions and at most 2^15 - 16 symbols that are neither
    predefined nor labels, every addressing instruction of the result of
    symbol elimination holds an integer in the range from 0 to 2^15 - 1. *)
Theorem StripSymbols_addresses_in_range
    (linesep : string) (program_lines : list string)
    (instructions out : list Instruction) (v : value) :
  Parse linesep program_lines = Ok instructions →
  StripSymbols instructions = Ok out →
  instruction_count instructions < 2 ^ 15 →
  16 + Z.of_nat (size (new_symbols instructions instructions)) ≤ 2 ^ 15 →
  AInstruction v ∈ out →
  ∃ n, v = VInt n ∧ 0 ≤ n < 2 ^ 15.
Proof.
  intros HP HS Hcount Hnew Hv.
  destruct (StripSymbols_values _ _ _ HS Hv) as (n&->&[Hn|[s Hs]]); exists n.
  - split; [done|]. apply Parse_Ok_inv in HP as ->.
    apply list_elem_of_fmap in Hn as (line&Hline&_).
    by apply ParseInstruction_literal_range with line.
  - split; [done|]. apply AnalyzeSymbols_range in Hs. lia.
Qed.

Lemma StripSymbols_addresses_in_range_witness :
  ∃ n, VInt 17 = VInt n ∧ 0 ≤ n < 2 ^ 15.
Proof.
  apply (StripSymbols_addresses_in_range LF
           ["@i"; "(LOOP)"; "@j"; "M=D"; "@LOOP"; "0;JMP"]
           [AInstruction (VStr "i"); LInstruction "LOOP"; AInstruction (VStr "j");
            CInstruction "M" "D" ""; AInstruction (VStr "LOOP");
            CInstruction "" "0" "JMP"]
           [AInstruction (VInt 16); AInstruction (VInt 17);
            CInstruction "M" "D" ""; AInstruction (VInt 1);
            CInstruction "" "0" "JMP"]).
  - by vm_compute.
  - by vm_compute.
  - by vm_compute.
  - by vm_compute.
  - apply list_elem_of_further, list_elem_of_here.
Defined.

Lemma instruction_count_replicate (n : nat) (i : Instruction) :
  encodable i → instruction_count (replicate n i) = Z.of_nat n.
Proof.
  intros Hi. induction n as [|n IH]; [done|].
  cbn [replicate]. rewrite instruction_count_cons, IH, decide_True by done. lia.
Qed.

Lemma filter_encodable_replicate (n : nat) (i : Instruction) :
  encodable i → filter encodable (replicate n i) = replicate n i.
Proof.
  intros Hi. induction n as [|n IH]; [done|].
  cbn [replicate]. by rewrite filter_cons, decide_True, IH.
Qed.

(** The claim C8 as it is stated fails for a long program: a label after
    2^15 compute instructions has the address 2^15, which an addressing
    instruction that refers to the label then holds. *)
Lemma StripSymbols_address_counterexample :
  let program_lines := replicate (Z.to_nat 32768) "0" ++ ["(END)"; "@END"] in
  ∃ instructions out,
    Parse LF program_lines = Ok instructions
    ∧ StripSymbols instructions = Ok out
    ∧ AInstruction (VInt 32768) ∈ out
    ∧ ¬ 32768 < 2 ^ 15.
Proof.
  remember (Z.to_nat 32768) as n eqn:Hn. intros program_lines.
  pose (zero := CInstruction "" "0" "").
  pose (instructions :=
    replicate n zero ++ [LInstruction "END"; AInstruction (VStr "END")]).
  assert (ParseInstruction <$> program_lines = instructions) as HP.
  { unfold program_lines, instructions. rewrite fmap_app, fmap_replicate.
    f_equal; by vm_compute. }
  destruct (StripSymbols_resolved instructions) as (out&E&Hout&_).
  exists instructions, out. split_and!.
  - rewrite Parse_valid, HP; [done|].
    unfold program_lines. apply Forall_app. split.
    + apply Forall_forall. by intros line [-> _]%elem_of_replicate.
    + by repeat constructor.
  - done.
  - unfold instructions in Hout at 2.
    rewrite filter_app, filter_encodable_replicate in Hout by done.
    apply Forall2_app_inv_l in Hout as (out1&out2&_&Hout&->).
    apply elem_of_app. right.
    change (filter encodable [LInstruction "END"; AInstruction (VStr "END")])
      with [AInstruction (VStr "END")] in Hout.
    apply Forall2_cons_inv_l in Hout as (o&out3&(a&Ha&->)&_&->).
    unfold instructions in Ha.
    rewrite AnalyzeSymbols_label in Ha by (by vm_compute).
    rewrite instruction_count_replicate in Ha by done.
    injection Ha as <-. replace (Z.of_nat n) with 32768 by lia.
    apply list_elem_of_here.
  - lia.
Qed.

(** ** The grammar of addressing instructions *)

Lemma rstrip_rstripped (s : string) : rstripped (rstrip s).
Proof.
  induction s as [|x s IH]; intros a c E.
  - destruct a; discriminate.
  - cbn [rstrip] in E. destruct (rstrip s) as [|y r] eqn:Er.
    + destruct (Ascii.is_space x) eqn:Ex.
      * destruct a; discriminate.
      * destruct a as [|x' a]; [by injection E as <-|].
        rewrite string_app_cons in E. injection E as _ E. destruct a; discriminate.
    + destruct a as [|x' a].
      * rewrite string_app_nil_l in E. discriminate.
      * rewrite string_app_cons in E. injection E as _ E. by apply (IH a).
Qed.

Lemma strip_rstripped (s : string) : rstripped (strip s).
Proof. apply rstrip_rstripped. Qed.

(** On a string without white space at its end, [$] matches at the end only. *)
Lemma at_end_rstripped (a r : string) :
  rstripped (a +:+ r) → at_end r = true → r = "".
Proof.
  intros Hs [E|E]%orb_true_iff; apply bool_decide_eq_true_1 in E; [done|].
  subst r. by specialize (Hs a newline eq_refl).
Qed.

Lemma _RE_AINSTRUCTION_elem (s g : string) :
  rstripped s →
  g ∈ ('(_, r0) ← lit "@" s;
       '(g1, r1) ← alt [star is_digit; _RE_SYMBOL] r0;
       if at_end r1 then [g1] else []) ↔
  s = "@" +:+ g ∧ (string_forall is_digit g = true ∨ is_symbol g = true).
Proof.
  intros Hs. rewrite list_elem_of_bind. split.
  - intros ([a r0]&H&[-> ->]%lit_elem).
    apply list_elem_of_bind in H as ([g1 r1]&H&Hg).
    assert (r0 = g1 +:+ r1
            ∧ (string_forall is_digit g1 = true ∨ is_symbol g1 = true)) as [-> Hg1].
    { unfold alt in Hg. apply list_elem_of_bind in Hg as (m&Hg&Hm).
      apply elem_of_cons in Hm as [->|Hm].
      { apply star_elem in Hg as [-> ?]. auto. }
      apply list_elem_of_singleton in Hm as ->.
      apply _RE_SYMBOL_elem in Hg as [? ->]. auto. }
    destruct (at_end r1) eqn:E; [|by apply elem_of_nil in H].
    apply list_elem_of_singleton in H as ->.
    rewrite <-string_app_assoc in Hs.
    apply (at_end_rstripped ("@" +:+ g1)) in E as ->; [|done].
    by rewrite string_app_nil_r.
  - intros [-> Hg]. exists ("@", g). split; [|by apply lit_elem].
    apply list_elem_of_bind. exists (g, ""). split; [by apply list_elem_of_singleton|].
    unfold alt. apply list_elem_of_bind. destruct Hg as [Hg|Hg].
    + exists (star is_digit). split; [|by left].
      apply star_elem. by rewrite string_app_nil_r.
    + exists _RE_SYMBOL. split; [|by right; left].
      apply _RE_SYMBOL_elem. by rewrite string_app_nil_r.
Qed.

(** The match of the pattern of addressing instructions on a string without
    white space at its end: "@" and then digits only, or a symbol. *)
Lemma _RE_AINSTRUCTION_rstripped (s : string) :
  rstripped s →
  _RE_AINSTRUCTION s =
    match s with
    | String "@" g =>
        if string_forall is_digit g || is_symbol g then Some g else None
    | _ => None
    end.
Proof.
  intros Hs. unfold _RE_AINSTRUCTION.
  pose proof (λ g, _RE_AINSTRUCTION_elem s g Hs) as H.
  destruct (_ ≫= _) as [|g l]; simpl.
  - destruct s as [|c g]; [done|]. destruct (decide (c = "@"%char)) as [->|Hc].
    + destruct (string_forall is_digit g || is_symbol g) eqn:E; [|done].
      apply orb_true_iff in E.
      assert (g ∈ @nil string) as Hnil by (apply H; split; [reflexivity|done]).
      by apply elem_of_nil in Hnil.
    + by repeat case_match.
  - destruct (proj1 (H g)) as [-> Hg]; [by left|].
    rewrite string_app_cons, string_app_nil_l.
    by apply orb_true_iff in Hg as ->.
Qed.

(** The grammar of addressing instructions as the parser implements it, on
    the line without its comment and surrounding white space: "@" and then
    either digits that denote a number below 2^15, or a symbol, or
    nothing at all. *)
Lemma AInstruction_Parse_grammar (line : string) :
  AInstruction_Parse line =
    match strip (RemoveTrailingComment line) with
    | String "@" g =>
        if isdigit g then
          if bool_decide (0 ≤ int g < 2 ^ 15)
          then Some (AInstruction (VInt (int g))) else None
        else if is_symbol g || bool_decide (g = "")
          then Some (AInstruction (VStr g)) else None
    | _ => None
    end.
Proof.
  unfold AInstruction_Parse.
  rewrite _RE_AINSTRUCTION_rstripped by apply strip_rstripped.
  destruct (strip _) as [|c g]; [done|].
  destruct (decide (c = "@"%char)) as [->|Hc]; [|by repeat case_match].
  destruct g as [|d g]; [reflexivity|].
  destruct (string_forall is_digit (String d g)) eqn:E.
  - rewrite orb_true_l. unfold AInstruction__ParseValue.
    assert (isdigit (String d g) = true) as -> by exact E. reflexivity.
  - rewrite orb_false_l.
    assert (isdigit (String d g) = false) as Hd by exact E. rewrite Hd.
    rewrite orb_false_r. destruct (is_symbol (String d g)); [|done].
    unfold AInstruction__ParseValue. by rewrite Hd.
Qed.

(** X7: a line that begins with "@" and is not an addressing instruction is
    an error: it is never a compute, label or empty instruction. *)
Lemma ParseInstruction_at_sign (line g : string) :
  strip (RemoveTrailingComment line) = String "@" g →
  ParseInstruction line =
    match AInstruction_Parse line with
    | Some instruction => instruction
    | None => ErrorInstruction line
    end.
Proof.
  intros E. unfold ParseInstruction, _INSTRUCTIONS, ParseInstruction_loop.
  destruct (AInstruction_Parse line); [done|].
  unfold CInstruction_Parse, LInstruction_Parse, EmptyInstruction_Parse.
  rewrite E.
  assert (_RE_CINSTRUCTION (String "@" g) = None) as -> by reflexivity.
  assert (_RE_LINSTRUCTION (String "@" g) = None) as -> by reflexivity.
  done.
Qed.

Lemma ParseInstruction_at_sign_witness :
  ParseInstruction "@12x // no symbol" =
    match AInstruction_Parse "@12x // no symbol" with
    | Some instruction => instruction
    | None => ErrorInstruction "@12x // no symbol"
    end.
Proof. apply (ParseInstruction_at_sign "@12x // no symbol" "12x"). by vm_compute. Defined.

(** C7: the parser accepts a line that holds "@" and nothing else as an
    addressing instruction with the empty string as its symbol, which is
    neither digits nor a symbol of the grammar; the assembler then gives the
    empty symbol the first free address. *)
Theorem AInstruction_Parse_bare_at :
  isdigit "" = false ∧ is_symbol "" = false
  ∧ AInstruction_Parse "@" = Some (AInstruction (VStr ""))
  ∧ ParseInstruction "@" = AInstruction (VStr "")
  ∧ Assemble LF ["@"] = Ok ["0000000000010000"].
Proof. split_and!; by vm_compute. Qed.

(** * Further properties *)

(** ** Comments *)

Lemma prefix_comment (s : string) :
  String.prefix "//" s = true ↔ ∃ r, s = "//" +:+ r.
Proof.
  rewrite String.prefix_correct.
  destruct s as [|a [|b r]]; simpl.
  - split; [done|]. by intros [r Hr].
  - split; [done|]. intros [r Hr]. by injection Hr.
  - split.
    + intros [= -> ->]. by exists r.
    + intros [r' [= -> -> ->]]. by destruct r'.
Qed.

Lemma RemoveTrailingComment_cons (c : ascii) (s : string) :
  RemoveTrailingComment (String c s)
  = if String.prefix "//" (String c s) then ""
    else String c (RemoveTrailingComment s).
Proof.
  unfold RemoveTrailingComment. cbn [String.index].
  destruct (String.prefix "//" (String c s)); [done|].
  by destruct (String.index 0 "//" s).
Qed.

Lemma RemoveTrailingComment_split (line : string) :
  ∃ rest, line = RemoveTrailingComment line +:+ rest
          ∧ (rest = "" ∨ String.prefix "//" rest = true).
Proof.
  induction line as [|c s (rest&IH&Hrest)]; [by exists ""; auto|].
  rewrite RemoveTrailingComment_cons.
  destruct (String.prefix "//" (String c s)) eqn:E.
  - exists (String c s). auto.
  - exists rest. rewrite string_app_cons, <-IH. auto.
Qed.

Lemma RemoveTrailingComment_first (line a b : string) :
  line = a +:+ "//" +:+ b → ∃ r, a = RemoveTrailingComment line +:+ r.
Proof.
  revert a. induction line as [|c s IH]; intros a E.
  { by destruct a. }
  rewrite RemoveTrailingComment_cons.
  destruct (String.prefix "//" (String c s)) eqn:P.
  { exists a. by rewrite string_app_nil_l. }
  destruct a as [|x a].
  { rewrite string_app_nil_l in E.
    assert (String.prefix "//" (String c s) = true) as P'; [|congruence].
    apply prefix_comment. by exists b. }
  rewrite string_app_cons in E. injection E as -> E.
  destruct (IH a E) as [r Hr]. exists r.
  by rewrite string_app_cons, <-Hr.
Qed.

(** X1: [RemoveTrailingComment] returns the part of the line before its first
    "//": the line is this part followed by nothing or by text that begins
    with "//", the part holds no "//", and wherever the line holds a "//",
    the part is within the text before it. *)
Theorem RemoveTrailingComment_before_comment (line : string) :
  (∃ rest, line = RemoveTrailingComment line +:+ rest
           ∧ (rest = "" ∨ ∃ comment, rest = "//" +:+ comment))
  ∧ String.index 0 "//" (RemoveTrailingComment line) = None
  ∧ RemoveTrailingComment (RemoveTrailingComment line) = RemoveTrailingComment line
  ∧ (∀ a b, line = a +:+ "//" +:+ b → ∃ r, a = RemoveTrailingComment line +:+ r)
  ∧ (∀ a b, RemoveTrailingComment line ≠ a +:+ "//" +:+ b).
Proof.
  assert (String.index 0 "//" (RemoveTrailingComment line) = None) as Hnone.
  { induction line as [|c s IH]; [reflexivity|].
    rewrite RemoveTrailingComment_cons.
    destruct (String.prefix "//" (String c s)) eqn:E; [reflexivity|].
    cbn [String.index]. rewrite IH.
    destruct (String.prefix "//" (String c (RemoveTrailingComment s))) eqn:E';
      [|done].
    apply prefix_comment in E' as [r Hr].
    assert (String.prefix "//" (String c s) = true) as E''; [|congruence].
    apply prefix_comment. destruct (RemoveTrailingComment_split s) as (rest&Hs&_).
    injection Hr as -> Hr. rewrite Hr in Hs. exists (r +:+ rest).
    rewrite Hs. by rewrite !string_app_cons, !string_app_nil_l. }
  assert (RemoveTrailingComment (RemoveTrailingComment line)
          = RemoveTrailingComment line) as Hidem.
  { unfold RemoveTrailingComment at 1. by rewrite Hnone. }
  split_and!.
  - destruct (RemoveTrailingComment_split line) as (rest&Hline&[->|Hrest]).
    + exists "". auto.
    + exists rest. split; [done|]. right. by apply prefix_comment.
  - done.
  - done.
  - apply RemoveTrailingComment_first.
  - intros a b E.
    destruct (RemoveTrailingComment_first _ _ _ E) as [r Hr].
    rewrite Hidem, E in Hr.
    apply (f_equal String.length) in Hr.
    rewrite !string_length_app in Hr. simpl in Hr. lia.
Qed.

Lemma prefix_comment_app (x : ascii) (code t1 t2 : string) :
  String.prefix "//" t1 = true → String.prefix "//" t2 = true →
  String.prefix "//" (String x (code +:+ t1))
  = String.prefix "//" (String x (code +:+ t2)).
Proof.
  intros [r1 ->]%prefix_comment [r2 ->]%prefix_comment.
  destruct code as [|y code].
  - rewrite !string_app_nil_l.
    destruct (decide (x = "/"%char)) as [->|Hx].
    + transitivity true; [|symmetry]; apply prefix_comment; eauto.
    + transitivity false; [|symmetry]; apply not_true_is_false;
        intros [r [= ? _]]%prefix_comment; congruence.
  - rewrite !(string_app_cons y).
    destruct (decide (x = "/"%char ∧ y = "/"%char)) as [[-> ->]|Hxy].
    + transitivity true; [|symmetry]; apply prefix_comment; eauto.
    + transitivity false; [|symmetry]; apply not_true_is_false;
        intros [r [= ? ? _]]%prefix_comment; by destruct Hxy.
Qed.

Lemma RemoveTrailingComment_comment_text (code c1 c2 : string) :
  RemoveTrailingComment (code +:+ "//" +:+ c1)
  = RemoveTrailingComment (code +:+ "//" +:+ c2).
Proof.
  assert (∀ c, String.prefix "//" ("//" +:+ c) = true) as H
    by (intros c; apply prefix_comment; by exists c).
  pose proof (H c1) as H1. pose proof (H c2) as H2. clear H.
  generalize dependent ("//" +:+ c1). generalize dependent ("//" +:+ c2).
  intros t2 H2 t1 H1. induction code as [|x code IH].
  - rewrite !string_app_nil_l. destruct t1, t2; try done.
    rewrite !RemoveTrailingComment_cons. by rewrite H1, H2.
  - rewrite !string_app_cons, !RemoveTrailingComment_cons, IH.
    by rewrite (prefix_comment_app x code t1 t2).
Qed.

(** X2: the text of a comment never influences how a line is parsed: two
    lines that differ only after the same "//" give the same result in each
    of the four parsers, so they are classified alike, an invalid line
    keeping its own text. *)
Theorem Parse_comment_text (code c1 c2 : string) :
  let line1 := code +:+ "//" +:+ c1 in
  let line2 := code +:+ "//" +:+ c2 in
  AInstruction_Parse line1 = AInstruction_Parse line2
  ∧ CInstruction_Parse line1 = CInstruction_Parse line2
  ∧ LInstruction_Parse line1 = LInstruction_Parse line2
  ∧ EmptyInstruction_Parse line1 = EmptyInstruction_Parse line2
  ∧ (ParseInstruction line1 = ParseInstruction line2
     ∨ (ParseInstruction line1 = ErrorInstruction line1
        ∧ ParseInstruction line2 = ErrorInstruction line2)).
Proof.
  intros line1 line2.
  assert (RemoveTrailingComment line1 = RemoveTrailingComment line2) as E
    by apply RemoveTrailingComment_comment_text.
  assert (AInstruction_Parse line1 = AInstruction_Parse line2) as EA
    by (unfold AInstruction_Parse; by rewrite E).
  assert (CInstruction_Parse line1 = CInstruction_Parse line2) as EC
    by (unfold CInstruction_Parse; by rewrite E).
  assert (LInstruction_Parse line1 = LInstruction_Parse line2) as EL
    by (unfold LInstruction_Parse; by rewrite E).
  assert (EmptyInstruction_Parse line1 = EmptyInstruction_Parse line2) as EE
    by (unfold EmptyInstruction_Parse; by rewrite E).
  split_and!; try done.
  unfold ParseInstruction, _INSTRUCTIONS, ParseInstruction_loop.
  rewrite EA, EC, EL, EE.
  destruct (AInstruction_Parse line2); [by left|].
  destruct (CInstruction_Parse line2); [by left|].
  destruct (LInstruction_Parse line2); [by left|].
  destruct (EmptyInstruction_Parse line2); [by left|].
  by right.
Qed.

(** ** The grammars of the other instructions *)

Lemma head_unique {A} (l : list A) (x : A) :
  (∀ y, y ∈ l → y = x) → x ∈ l → head l = Some x.
Proof.
  intros Hall Hx. destruct l as [|y l]; [by apply elem_of_nil in Hx|].
  simpl. f_equal. apply Hall. by left.
Qed.

Lemma lstrip_empty (s : string) :
  lstrip s = "" ↔ string_forall Ascii.is_space s = true.
Proof.
  induction s as [|c s IH]; [done|]. simpl.
  destruct (Ascii.is_space c); [by rewrite IH|]. by split.
Qed.

Lemma rstrip_empty (s : string) :
  rstrip s = "" ↔ string_forall Ascii.is_space s = true.
Proof.
  induction s as [|c s IH]; [done|]. simpl.
  destruct (rstrip s) as [|d r].
  - destruct (Ascii.is_space c); simpl; [|by split].
    split; [intros _; by apply IH|done].
  - split; [done|]. intros [_ H]%andb_true_iff. by apply IH in H.
Qed.

Lemma lstrip_forall (P : ascii → bool) (s : string) :
  string_forall P s = true → string_forall P (lstrip s) = true.
Proof.
  induction s as [|c s IH]; [done|]. simpl. intros [Hc Hs]%andb_true_iff.
  destruct (Ascii.is_space c); [auto|]. simpl. by rewrite Hc, Hs.
Qed.

(** [strip] returns the empty string for white space only, and only then. *)
Lemma strip_empty (s : string) :
  strip s = "" ↔ string_forall Ascii.is_space s = true.
Proof.
  unfold strip. rewrite rstrip_empty. split; [|apply lstrip_forall].
  induction s as [|c s IH]; [done|]. simpl.
  destruct (Ascii.is_space c) eqn:E; [done|]. simpl. by rewrite E.
Qed.

(** The ways a line is classified. *)
Lemma ParseInstruction_cases (line : string) :
  let s := strip (RemoveTrailingComment line) in
  (∃ v, ParseInstruction line = AInstruction v
        ∧ AInstruction_Parse line = Some (AInstruction v))
  ∨ (AInstruction_Parse line = None
     ∧ ((∃ m, ParseInstruction line = CInstruction__ParseMatch m
              ∧ _RE_CINSTRUCTION s = Some m)
        ∨ (_RE_CINSTRUCTION s = None
           ∧ ((∃ g, ParseInstruction line = LInstruction g
                    ∧ _RE_LINSTRUCTION s = Some g)
              ∨ (_RE_LINSTRUCTION s = None
                 ∧ ((s = "" ∧ ParseInstruction line = EmptyInstruction)
                    ∨ (s ≠ "" ∧ ParseInstruction line = ErrorInstruction line))))))).
Proof.
  intros s.
  unfold ParseInstruction, _INSTRUCTIONS, ParseInstruction_loop.
  destruct (AInstruction_Parse line) as [i|] eqn:EA.
  { left. unfold AInstruction_Parse, AInstruction__ParseValue in EA.
    repeat case_match; simplify_eq; eauto. }
  right. split; [done|].
  unfold CInstruction_Parse, LInstruction_Parse, EmptyInstruction_Parse,
    ErrorInstruction_Parse. fold s.
  destruct (_RE_CINSTRUCTION s) as [m|]; [left; eauto|]. right. split; [done|].
  destruct (_RE_LINSTRUCTION s) as [g|]; [left; eauto|]. right. split; [done|].
  case_bool_decide; auto.
Qed.

(** X3: a line is classified as an empty instruction exactly when the text
    before its first "//" is white space only. *)
Theorem ParseInstruction_Empty (line : string) :
  ParseInstruction line = EmptyInstruction
  ↔ string_forall Ascii.is_space (RemoveTrailingComment line) = true.
Proof.
  rewrite <-strip_empty. split.
  - intros E.
    destruct (ParseInstruction_cases line)
      as [(v&E'&_)|[_ [(m&E'&_)|[_ [(g&E'&_)|[_ [[Hs _]|[_ E']]]]]]]];
      try done; try congruence.
    destruct m as [[??]?]. simpl in E'. congruence.
  - intros Hs.
    unfold ParseInstruction, _INSTRUCTIONS, ParseInstruction_loop,
      AInstruction_Parse, CInstruction_Parse, LInstruction_Parse,
      EmptyInstruction_Parse. rewrite Hs. reflexivity.
Qed.

Lemma string_app_inj_r (a b t : string) : a +:+ t = b +:+ t → a = b.
Proof.
  intros E.
  assert (String.length a = String.length b) as Hlen.
  { apply (f_equal String.length) in E. rewrite !string_length_app in E. lia. }
  revert b E Hlen. induction a as [|x a IH]; intros [|y b] E Hlen; try done.
  rewrite !string_app_cons in E. injection E as -> E.
  f_equal. apply IH; [done|]. simpl in Hlen. lia.
Qed.

Lemma _RE_LINSTRUCTION_elem (s g : string) :
  rstripped s →
  g ∈ ('(_, r0) ← lit "(" s;
       '(g1, r1) ← _RE_SYMBOL r0;
       '(_, r2) ← lit ")" r1;
       if at_end r2 then [g1] else []) ↔
  s = "(" +:+ g +:+ ")" ∧ is_symbol g = true.
Proof.
  intros Hs. rewrite list_elem_of_bind. split.
  - intros ([a r0]&H&[-> ->]%lit_elem).
    apply list_elem_of_bind in H as ([g1 r1]&H&Hg).
    apply _RE_SYMBOL_elem in Hg as [Hg ->].
    apply list_elem_of_bind in H as ([b r2]&H&[-> ->]%lit_elem).
    destruct (at_end r2) eqn:E; [|by apply elem_of_nil in H].
    apply list_elem_of_singleton in H as ->.
    replace ("(" +:+ g1 +:+ ")" +:+ r2) with (("(" +:+ g1 +:+ ")") +:+ r2) in Hs
      by (by rewrite !string_app_assoc).
    apply (at_end_rstripped ("(" +:+ g1 +:+ ")")) in E as ->; [|done].
    by rewrite string_app_nil_r.
  - intros [-> Hg]. exists ("(", g +:+ ")"). split; [|by apply lit_elem].
    apply list_elem_of_bind. exists (g, ")"). split; [|by apply _RE_SYMBOL_elem].
    apply list_elem_of_bind. exists (")", ""). split; [|by apply lit_elem].
    by apply list_elem_of_singleton.
Qed.

Lemma _RE_LINSTRUCTION_Some (s g : string) :
  rstripped s →
  _RE_LINSTRUCTION s = Some g ↔ s = "(" +:+ g +:+ ")" ∧ is_symbol g = true.
Proof.
  intros Hs. unfold _RE_LINSTRUCTION. split.
  - intros H%head_Some_elem_of. by apply _RE_LINSTRUCTION_elem in H.
  - intros H. apply head_unique; [|by apply _RE_LINSTRUCTION_elem].
    intros g' Hg'. apply _RE_LINSTRUCTION_elem in Hg' as [Hg' _]; [|done].
    destruct H as [-> _]. rewrite !string_app_cons, !string_app_nil_l in Hg'.
    injection Hg' as Hg'. symmetry. by apply string_app_inj_r in Hg'.
Qed.

(** X4: a line is classified as the label instruction of [g] exactly when,
    without its comment and surrounding white space, it is "(", the symbol
    [g] and ")". *)
Theorem ParseInstruction_Label (line g : string) :
  ParseInstruction line = LInstruction g
  ↔ strip (RemoveTrailingComment line) = "(" +:+ g +:+ ")" ∧ is_symbol g = true.
Proof.
  rewrite <-_RE_LINSTRUCTION_Some by apply strip_rstripped. split.
  - intros E.
    destruct (ParseInstruction_cases line)
      as [(v&E'&_)|[_ [(m&E'&_)|[_ [(g'&E'&Hg')|[_ [[_ E']|[_ E']]]]]]]];
      try congruence.
    destruct m as [[??]?]. simpl in E'. congruence.
  - intros Hg. pose proof Hg as Hs.
    apply _RE_LINSTRUCTION_Some in Hs as [Hs _]; [|apply strip_rstripped].
    unfold ParseInstruction, _INSTRUCTIONS, ParseInstruction_loop,
      AInstruction_Parse, CInstruction_Parse, LInstruction_Parse.
    rewrite Hg. rewrite Hs.
    assert (_RE_AINSTRUCTION (String "(" (g +:+ ")")) = None) as E1 by reflexivity.
    assert (_RE_CINSTRUCTION (String "(" (g +:+ ")")) = None) as E2 by reflexivity.
    rewrite string_app_cons, string_app_nil_l. by rewrite E1, E2.
Qed.

Lemma group_or_empty_Some (a : string) (alts : list string) :
  a ∈ alts → "" ∉ alts → group_or_empty (Some a) = a ∧ a ≠ "".
Proof.
  intros Ha Hne. assert (a ≠ "") by (by intros ->). by destruct a.
Qed.

Lemma _RE_CINSTRUCTION_elem (s : string) (g1 : option string) (g2 : string)
    (g3 : option string) :
  rstripped s →
  (g1, g2, g3) ∈ ('(g1, r1) ← _RE_DEST s;
                  '(g2, r2) ← _RE_COMP r1;
                  '(g3, r3) ← _RE_JUMP r2;
                  if at_end r3 then [(g1, g2, g3)] else []) →
  s = CInstruction_text (group_or_empty g1) g2 (group_or_empty g3)
  ∧ group_or_empty g1 ∈ destinations
  ∧ g2 ∈ _RE_COMP_alternatives
  ∧ group_or_empty g3 ∈ jumps.
Proof.
  intros Hs E.
  apply list_elem_of_bind in E as ([g1' r1]&E&H1).
  apply list_elem_of_bind in E as ([g2' r2]&E&[H2 Hr1]%alt_lit_elem).
  apply list_elem_of_bind in E as ([g3' r3]&E&H3).
  apply _RE_DEST_elem in H1. apply _RE_JUMP_elem in H3.
  destruct (at_end r3) eqn:Eend; [|by apply elem_of_nil in E].
  apply list_elem_of_singleton in E as [= <- <- <-].
  assert ("" ∉ _RE_DEST_alternatives) as Hd
    by (apply (bool_decide_unpack _); by vm_compute).
  assert ("" ∉ _RE_JUMP_alternatives) as Hj
    by (apply (bool_decide_unpack _); by vm_compute).
  assert (∃ dtext jtext,
    s = (dtext +:+ g2 +:+ jtext) +:+ r3
    ∧ CInstruction_text (group_or_empty g1) g2 (group_or_empty g3)
      = dtext +:+ g2 +:+ jtext
    ∧ group_or_empty g1 ∈ destinations ∧ group_or_empty g3 ∈ jumps)
    as (dtext&jtext&Es&Et&Hdest&Hjump).
  { unfold CInstruction_text, destinations, jumps.
    destruct H1 as [(d&->&Hd'&->)|[-> <-]], H3 as [(j&->&Hj'&->)|[-> ->]];
      rewrite Hr1.
    - destruct (group_or_empty_Some d _ Hd' Hd) as [-> ?].
      destruct (group_or_empty_Some j _ Hj' Hj) as [-> ?].
      exists (d +:+ "="), (";" +:+ j). rewrite !decide_False by done.
      split_and!; [by rewrite !string_app_assoc|done|by right|by right].
    - destruct (group_or_empty_Some d _ Hd' Hd) as [-> ?].
      exists (d +:+ "="), "". rewrite decide_False, decide_True by done.
      split_and!; [by rewrite !string_app_assoc|done|by right|by left].
    - destruct (group_or_empty_Some j _ Hj' Hj) as [-> ?].
      exists "", (";" +:+ j). rewrite decide_True, decide_False by done.
      split_and!; [by rewrite !string_app_assoc|done|by left|by right].
    - exists "", "". rewrite !decide_True by done.
      split_and!; [by rewrite !string_app_assoc|done|by left|by left]. }
  rewrite Es in Hs.
  apply (at_end_rstripped (dtext +:+ g2 +:+ jtext)) in Eend as ->; [|done].
  rewrite string_app_nil_r in Es. by rewrite Et.
Qed.

Lemma CInstruction_text_parsed (d c j : string) :
  d ∈ destinations → c ∈ _RE_COMP_alternatives → j ∈ jumps →
  _RE_AINSTRUCTION (CInstruction_text d c j) = None
  ∧ CInstruction__ParseMatch <$> _RE_CINSTRUCTION (CInstruction_text d c j)
    = Some (CInstruction d c j).
Proof.
  intros Hd Hc Hj.
  assert (Forall (λ d, Forall (λ c, Forall (λ j,
    _RE_AINSTRUCTION (CInstruction_text d c j) = None
    ∧ CInstruction__ParseMatch <$> _RE_CINSTRUCTION (CInstruction_text d c j)
      = Some (CInstruction d c j))
    jumps) _RE_COMP_alternatives) destinations) as H.
  { apply (bool_decide_unpack _). by vm_compute. }
  rewrite Forall_forall in H. specialize (H _ Hd).
  rewrite Forall_forall in H. specialize (H _ Hc).
  rewrite Forall_forall in H. by apply H.
Qed.

(** X5: a line is classified as the compute instruction with destination
    [d], computation [c] and jump [j] exactly when these are a destination
    (or none), a computation and a jump (or none) of the grammar and the line,
    without its comment and surrounding white space, is their source text:
    the destination and "=", if there is one, the computation, and ";" and
    the jump, if there is one. *)
Theorem ParseInstruction_Compute (line d c j : string) :
  ParseInstruction line = CInstruction d c j
  ↔ d ∈ destinations ∧ c ∈ _RE_COMP_alternatives ∧ j ∈ jumps
    ∧ strip (RemoveTrailingComment line) = CInstruction_text d c j.
Proof.
  split.
  - intros E.
    destruct (ParseInstruction_cases line)
      as [(v&E'&_)|[_ [(m&E'&Hm)|[_ [(g'&E'&Hg')|[_ [[_ E']|[_ E']]]]]]]];
      try congruence.
    destruct m as [[g1 g2] g3]. rewrite E in E'. injection E' as -> -> ->.
    apply head_Some_elem_of, _RE_CINSTRUCTION_elem in Hm; [|apply strip_rstripped].
    naive_solver.
  - intros (Hd&Hc&Hj&Hs).
    destruct (CInstruction_text_parsed d c j Hd Hc Hj) as [EA EC].
    unfold ParseInstruction, _INSTRUCTIONS, ParseInstruction_loop,
      AInstruction_Parse, CInstruction_Parse.
    rewrite Hs, EA. by destruct (_RE_CINSTRUCTION _); simplify_eq/=.
Qed.

(** ** Encoding *)

Lemma binary_be_mod (w k : nat) (n : Z) :
  (k ≤ w)%nat → binary_be k (n `mod` 2 ^ Z.of_nat w) = binary_be k n.
Proof.
  intros Hk. induction k as [|k IH]; [done|].
  cbn [binary_be]. rewrite IH by lia.
  by rewrite Z.mod_pow2_bits_low by lia.
Qed.

(** X9: encoding an addressing instruction never fails on an integer, in
    range or not: the result is "0" and the 15 low bits of the integer, so an
    integer outside the range from 0 to 2^15 - 1 is encoded as its remainder
    modulo 2^15. *)
Theorem AInstruction_ToBinary_wraps (n : Z) :
  AInstruction_ToBinary (VInt n) = Ok ("0" +:+ binary_be 15 n)
  ∧ AInstruction_ToBinary (VInt n) = AInstruction_ToBinary (VInt (n `mod` 2 ^ 15))
  ∧ String.length ("0" +:+ binary_be 15 n) = 16%nat
  ∧ string_forall is_bit ("0" +:+ binary_be 15 n) = true
  ∧ binary_value 0 ("0" +:+ binary_be 15 n) = n `mod` 2 ^ 15.
Proof.
  split_and!.
  - unfold AInstruction_ToBinary. by rewrite ToBinary15_binary_be.
  - unfold AInstruction_ToBinary. rewrite !ToBinary15_binary_be.
    change (2 ^ 15) with (2 ^ Z.of_nat 15). by rewrite (binary_be_mod 15 15 n).
  - rewrite string_length_app, binary_be_length. reflexivity.
  - rewrite string_app_cons, string_app_nil_l. cbn [string_forall].
    by rewrite binary_be_bits.
  - rewrite string_app_cons, string_app_nil_l, binary_value_cons.
    rewrite decide_False by done. by rewrite binary_value_be.
Qed.

Lemma _COMP_TABLE_bits (comp c : string) :
  _COMP_TABLE !! comp = Some c →
  String.length c = 7%nat ∧ string_forall is_bit c = true.
Proof.
  assert (map_Forall (λ _ c, String.length c = 7%nat ∧ string_forall is_bit c = true)
            _COMP_TABLE) as H by (apply (bool_decide_unpack _); by vm_compute).
  apply H.
Qed.

Lemma _DEST_TABLE_bits (dest d : string) :
  _DEST_TABLE !! dest = Some d →
  String.length d = 3%nat ∧ string_forall is_bit d = true.
Proof.
  assert (map_Forall (λ _ c, String.length c = 3%nat ∧ string_forall is_bit c = true)
            _DEST_TABLE) as H by (apply (bool_decide_unpack _); by vm_compute).
  apply H.
Qed.

Lemma _JUMP_TABLE_bits (jump j : string) :
  _JUMP_TABLE !! jump = Some j →
  String.length j = 3%nat ∧ string_forall is_bit j = true.
Proof.
  assert (map_Forall (λ _ c, String.length c = 3%nat ∧ string_forall is_bit c = true)
            _JUMP_TABLE) as H by (apply (bool_decide_unpack _); by vm_compute).
  apply H.
Qed.

Lemma string_forall_app (P : ascii → bool) (s t : string) :
  string_forall P (s +:+ t) = string_forall P s && string_forall P t.
Proof.
  induction s as [|c s IH]; [done|].
  rewrite string_app_cons. simpl. by rewrite IH, andb_assoc.
Qed.

(** Whatever an encoding returns is a string of 16 binary digits; it begins
    with "0" for an addressing instruction and with "111" for a compute
    instruction. *)
Lemma ToBinary_word (i : Instruction) (b : string) :
  ToBinary i = Ok b →
  is_word b
  ∧ match i with
    | AInstruction _ => ∃ r, b = "0" +:+ r
    | _ => ∃ r, b = "111" +:+ r
    end.
Proof.
  destruct i as [[n|s]|dest comp jump| | | |]; try done.
  - intros [= <-]. split; [|by eexists]. split.
    + rewrite ToBinary15_binary_be, string_length_app, binary_be_length.
      reflexivity.
    + rewrite ToBinary15_binary_be, string_app_cons, string_app_nil_l.
      cbn [string_forall]. by rewrite binary_be_bits.
  - intros H. by apply AInstruction_ToBinary_str in H.
  - unfold ToBinary, CInstruction_ToBinary, getitem.
    destruct (_COMP_TABLE !! comp) as [c|] eqn:Ec; [|done].
    destruct (_DEST_TABLE !! dest) as [d|] eqn:Ed; [|done].
    destruct (_JUMP_TABLE !! jump) as [j|] eqn:Ej; [|done].
    intros [= <-]. split; [|by eexists].
    apply _COMP_TABLE_bits in Ec as [Lc Bc]. apply _DEST_TABLE_bits in Ed as [Ld Bd].
    apply _JUMP_TABLE_bits in Ej as [Lj Bj]. split.
    + rewrite !string_length_app, Lc, Ld, Lj. reflexivity.
    + rewrite !string_forall_app, Bc, Bd, Bj. reflexivity.
Qed.

Lemma string_app_inj_length (a b s t : string) :
  String.length a = String.length b → a +:+ s = b +:+ t → a = b ∧ s = t.
Proof.
  revert b. induction a as [|x a IH]; intros [|y b] Hlen E; try done.
  rewrite !string_app_cons in E. injection E as -> E.
  destruct (IH b) as [-> ->]; [by injection Hlen|done|done].
Qed.

Lemma table_injective (T : gmap string string) (k k' v : string) :
  bool_decide (map_Forall (λ k v, map_Forall (λ k' v', v = v' → k = k') T) T) = true →
  T !! k = Some v → T !! k' = Some v → k = k'.
Proof.
  intros H%bool_decide_eq_true_1 Hk Hk'.
  by apply (H k v Hk k' v Hk').
Qed.

(** X10: encoding is injective: two instructions with the same encoding are
    the same instruction, as long as the integers of addressing instructions
    are in range. *)
Theorem ToBinary_injective (i i' : Instruction) (b : string) :
  ToBinary i = Ok b → ToBinary i' = Ok b →
  address_in_range i → address_in_range i' →
  i = i'.
Proof.
  intros E E' Hi Hi'.
  destruct i as [[n|s]|dest comp jump| | | |]; try done;
    destruct i' as [[n'|s']|dest' comp' jump'| | | |]; try done;
    try no_str_encoding.
  - unfold ToBinary, AInstruction_ToBinary in E, E'.
    rewrite ToBinary15_binary_be in E, E'.
    assert ("0" +:+ binary_be 15 n = "0" +:+ binary_be 15 n') as H by congruence.
    apply (string_app_inj_length "0" "0") in H as [_ H]; [|done].
    apply (f_equal (binary_value 0)) in H. rewrite !binary_value_be in H.
    unfold address_in_range in Hi, Hi'. change (Z.of_nat 15) with 15 in H.
    rewrite !Z.mod_small in H by lia. do 2 f_equal. lia.
  - apply ToBinary_word in E as [_ [r ->]]. apply ToBinary_word in E' as [_ [r' E']].
    discriminate.
  - apply ToBinary_word in E as [_ [r ->]]. apply ToBinary_word in E' as [_ [r' E']].
    discriminate.
  - unfold ToBinary, CInstruction_ToBinary, getitem in E, E'.
    destruct (_COMP_TABLE !! comp) as [c|] eqn:Ec; [|done].
    destruct (_DEST_TABLE !! dest) as [d|] eqn:Ed; [|done].
    destruct (_JUMP_TABLE !! jump) as [j|] eqn:Ej; [|done].
    destruct (_COMP_TABLE !! comp') as [c'|] eqn:Ec'; [|done].
    destruct (_DEST_TABLE !! dest') as [d'|] eqn:Ed'; [|done].
    destruct (_JUMP_TABLE !! jump') as [j'|] eqn:Ej'; [|done].
    cbn [mbind result_bind] in E, E'.
    assert ("111" +:+ c +:+ d +:+ j = "111" +:+ c' +:+ d' +:+ j') as H by congruence.
    clear E E'. rename H into E'.
    apply (string_app_inj_length "111" "111") in E' as [_ E']; [|done].
    pose proof (_COMP_TABLE_bits _ _ Ec) as [Lc _].
    pose proof (_COMP_TABLE_bits _ _ Ec') as [Lc' _].
    pose proof (_DEST_TABLE_bits _ _ Ed) as [Ld _].
    pose proof (_DEST_TABLE_bits _ _ Ed') as [Ld' _].
    apply string_app_inj_length in E' as [-> E']; [|congruence].
    apply string_app_inj_length in E' as [-> ->]; [|congruence].
    f_equal.
    + eapply (table_injective _DEST_TABLE); [by vm_compute|done..].
    + eapply (table_injective _COMP_TABLE); [by vm_compute|done..].
    + eapply (table_injective _JUMP_TABLE); [by vm_compute|done..].
Qed.

Lemma ToBinary_injective_witness :
  CInstruction "D" "D+A" "" = CInstruction "D" "D+A" "".
Proof.
  apply (ToBinary_injective _ _ "1110000010010000").
  - by vm_compute.
  - by vm_compute.
  - exact I.
  - exact I.
Defined.

(** ** The whole assembler *)

Lemma ParseInstruction_fields (line : string) :
  fields_of_grammar (ParseInstruction line).
Proof.
  destruct (ParseInstruction_cases line)
    as [(v&->&_)|[_ [(m&E&Hm)|[_ [(g&->&_)|[_ [[_ ->]|[_ ->]]]]]]]]; try done.
  destruct (CInstruction_Parse_fields line (CInstruction__ParseMatch m))
    as (d&c&j&E'&?&?&?).
  { unfold CInstruction_Parse. by rewrite Hm. }
  rewrite E, E'. done.
Qed.

Lemma ToBinary_negated_A (i : Instruction) :
  is_negated_A i = true → ToBinary i = Raise (KeyError "-A").
Proof.
  destruct i as [|dest comp jump| | | |]; try done. simpl.
  intros ->%bool_decide_eq_true_1. reflexivity.
Qed.

Lemma ToBinary_total (i : Instruction) :
  symbol_free i → fields_of_grammar i → is_negated_A i = false →
  ∃ b, ToBinary i = Ok b.
Proof.
  destruct i as [[n|s]|dest comp jump| | | |]; try done; [by eexists|].
  intros _ (Hd&Hc&Hj) Hne. apply bool_decide_eq_false_1 in Hne.
  destruct (_COMP_TABLE_lookup comp Hc Hne) as (c&Ec&_).
  destruct (_DEST_TABLE_lookup dest Hd) as (d&Ed&_).
  destruct (_JUMP_TABLE_lookup jump Hj) as (j&Ej&_).
  exists ("111" +:+ c +:+ d +:+ j).
  unfold ToBinary, CInstruction_ToBinary, getitem. by rewrite Ec, Ed, Ej.
Qed.

(** What [TranslateToBinary] returns on instructions without symbols. *)
Lemma TranslateToBinary_outcome (xs : list Instruction) :
  Forall symbol_free xs → Forall fields_of_grammar xs →
  if decide (Exists (λ i, is_negated_A i = true) xs)
  then TranslateToBinary xs = Raise (KeyError "-A")
  else ∃ out, TranslateToBinary xs = Ok out
              ∧ Forall2 (λ i b, ToBinary i = Ok b) xs out.
Proof.
  unfold TranslateToBinary.
  induction xs as [|i xs IH]; intros Hfree Hfields.
  { rewrite decide_False by (by intros ?%Exists_nil). exists []. by split. }
  apply Forall_cons in Hfree as [Hi Hfree]. apply Forall_cons in Hfields as [Hf Hfields].
  specialize (IH Hfree Hfields). cbn [result_mapM].
  destruct (is_negated_A i) eqn:Ei.
  - rewrite decide_True by (by left). by rewrite ToBinary_negated_A.
  - destruct (ToBinary_total i Hi Hf Ei) as [b Eb]. rewrite Eb. cbn.
    destruct (decide (Exists _ xs)) as [Hex|Hnex].
    + rewrite decide_True by (by right). by rewrite IH.
    + rewrite decide_False; last first.
      { intros [?|?]%Exists_cons; [congruence|done]. }
      destruct IH as (out&->&Hout). exists (b :: out). split; [done|].
      by constructor.
Qed.

(** The instructions of the result of symbol elimination that are not
    addressing instructions are instructions of the program. *)
Lemma StripSymbols_from_program (xs out : list Instruction) (o : Instruction) :
  StripSymbols xs = Ok out → o ∈ out →
  (∃ n, o = AInstruction (VInt n)) ∨ o ∈ xs.
Proof.
  intros E Ho. destruct (StripSymbols_resolved xs) as (out'&E'&Hout&_).
  assert (out' = out) as -> by congruence.
  destruct (proj1 (list_elem_of_lookup _ _) Ho) as [k Hk].
  destruct (Forall2_lookup_r _ _ _ _ _ Hout Hk) as (i&Hi&Hres).
  apply list_elem_of_lookup_2, list_elem_of_filter in Hi as [_ Hi].
  destruct i as [[n|s]| | | | |]; simpl in Hres; subst; eauto.
  destruct Hres as (a&_&->). eauto.
Qed.

Lemma StripSymbols_negated_A (xs out : list Instruction) :
  StripSymbols xs = Ok out →
  Exists (λ i, is_negated_A i = true) out ↔ Exists (λ i, is_negated_A i = true) xs.
Proof.
  intros E. destruct (StripSymbols_resolved xs) as (out'&E'&Hout&_).
  assert (out' = out) as -> by congruence.
  rewrite !Exists_exists. split.
  - intros (o&Ho&Hneg).
    destruct (StripSymbols_from_program xs out o E Ho) as [[n ->]|Hin]; [done|eauto].
  - intros (i&Hi&Hneg).
    assert (i ∈ filter encodable xs) as Hf.
    { apply list_elem_of_filter. split; [|done]. by destruct i. }
    apply list_elem_of_lookup in Hf as [k Hk].
    destruct (Forall2_lookup_l _ _ _ _ _ Hout Hk) as (o&Ho&Hres).
    exists o. split; [by eapply list_elem_of_lookup_2|].
    destruct i as [[n|s]| | | | |]; simpl in Hres, Hneg; by subst.
Qed.

(** A program with an invalid line is not parsed. *)
Lemma Parse_invalid (linesep : string) (program_lines : list string) :
  Exists (λ line, is_ErrorInstruction (ParseInstruction line) = true)
         program_lines →
  Parse linesep program_lines
  = Raise (AssemblerError (join linesep (error_report program_lines))).
Proof.
  intros (line&Hin&Herr)%Exists_exists.
  unfold Parse. change 1 with (Z.of_nat 0 + 1). rewrite Parse_loop.
  rewrite app_nil_l.
  change (omap id (imap (λ i, error_message (0 + i)) program_lines))
    with (error_report program_lines).
  destruct (error_report program_lines) as [|m ms] eqn:E; [|done].
  apply error_report_nil in E. rewrite Forall_forall in E.
  specialize (E _ Hin). congruence.
Qed.

Lemma valid_or_invalid (program_lines : list string) :
  Forall (λ line, is_ErrorInstruction (ParseInstruction line) = false) program_lines
  ∨ Exists (λ line, is_ErrorInstruction (ParseInstruction line) = true) program_lines.
Proof.
  induction program_lines as [|line lines [IH|IH]]; [by left| |by right; right].
  destruct (is_ErrorInstruction (ParseInstruction line)) eqn:E.
  - right. by left.
  - left. by constructor.
Qed.

(** X11: a program without invalid lines and without the computation [-A]
    is assembled: the result has one string for each addressing or compute
    instruction of the program, in their order, which is the encoding of the
    instruction after symbol elimination and has 16 binary digits. *)
Theorem Assemble_valid (linesep : string) (program_lines : list string) :
  let instructions := ParseInstruction <$> program_lines in
  Forall (λ line, is_ErrorInstruction (ParseInstruction line) = false)
         program_lines →
  Forall (λ i, is_negated_A i = false) instructions →
  ∃ stripped out,
    StripSymbols instructions = Ok stripped
    ∧ Assemble linesep program_lines = Ok out
    ∧ Forall2 (λ i b, ToBinary i = Ok b) stripped out
    ∧ Forall is_word out
    ∧ Z.of_nat (length out) = instruction_count instructions.
Proof.
  intros instructions Hvalid Hneg.
  destruct (StripSymbols_resolved instructions) as (stripped&ES&Hres&Hfree).
  assert (Forall fields_of_grammar stripped) as Hfields.
  { apply Forall_forall. intros o Ho.
    destruct (StripSymbols_from_program _ _ o ES Ho) as [[n ->]|Hin]; [done|].
    apply list_elem_of_fmap in Hin as (line&->&_). apply ParseInstruction_fields. }
  pose proof (TranslateToBinary_outcome stripped Hfree Hfields) as HT.
  rewrite decide_False in HT; last first.
  { rewrite (StripSymbols_negated_A _ _ ES). intros (i&Hi&Hi')%Exists_exists.
    rewrite Forall_forall in Hneg. specialize (Hneg _ Hi). congruence. }
  destruct HT as (out&ET&Hout). exists stripped, out. split_and!.
  - done.
  - unfold Assemble. rewrite Parse_valid by done. cbn.
    fold instructions. rewrite ES. cbn. done.
  - done.
  - apply Forall_forall. intros b Hb.
    apply list_elem_of_lookup in Hb as [k Hk].
    destruct (Forall2_lookup_r _ _ _ _ _ Hout Hk) as (i&_&Hi).
    by apply ToBinary_word in Hi as [? _].
  - rewrite <-(Forall2_length _ _ _ Hout), <-(Forall2_length _ _ _ Hres). done.
Qed.

Lemma Assemble_valid_witness :
  ∃ stripped out,
    StripSymbols (ParseInstruction <$> ["@i"; "(LOOP)"; "M=M+1 // next"; "@LOOP"; ""; "0;JMP"])
      = Ok stripped
    ∧ Assemble LF ["@i"; "(LOOP)"; "M=M+1 // next"; "@LOOP"; ""; "0;JMP"] = Ok out
    ∧ Forall2 (λ i b, ToBinary i = Ok b) stripped out
    ∧ Forall is_word out
    ∧ Z.of_nat (length out)
      = instruction_count
          (ParseInstruction <$> ["@i"; "(LOOP)"; "M=M+1 // next"; "@LOOP"; ""; "0;JMP"]).
Proof.
  apply (Assemble_valid LF ["@i"; "(LOOP)"; "M=M+1 // next"; "@LOOP"; ""; "0;JMP"]).
  - apply (bool_decide_unpack _). by vm_compute.
  - apply (bool_decide_unpack _). by vm_compute.
Defined.

(** X12: the assembler fails in two ways only: with [AssemblerError] and the
    report of the invalid lines, if there are any, and otherwise with
    [KeyError] for the computation [-A], if a line has it.  The lookup of a
    symbol never fails. *)
Theorem Assemble_failures (linesep : string) (program_lines : list string)
    (e : exn) :
  Assemble linesep program_lines = Raise e →
  (Exists (λ line, is_ErrorInstruction (ParseInstruction line) = true)
          program_lines
   ∧ e = AssemblerError (join linesep (error_report program_lines)))
  ∨ (Forall (λ line, is_ErrorInstruction (ParseInstruction line) = false)
            program_lines
     ∧ Exists (λ i, is_negated_A i = true) (ParseInstruction <$> program_lines)
     ∧ e = KeyError "-A").
Proof.
  intros E. destruct (valid_or_invalid program_lines) as [Hvalid|Hinvalid].
  - right. split; [done|].
    destruct (StripSymbols_resolved (ParseInstruction <$> program_lines))
      as (stripped&ES&Hres&Hfree).
    assert (Forall fields_of_grammar stripped) as Hfields.
    { apply Forall_forall. intros o Ho.
      destruct (StripSymbols_from_program _ _ o ES Ho) as [[n ->]|Hin]; [done|].
      apply list_elem_of_fmap in Hin as (line&->&_). apply ParseInstruction_fields. }
    pose proof (TranslateToBinary_outcome stripped Hfree Hfields) as HT.
    unfold Assemble in E. rewrite Parse_valid in E by done. cbn in E.
    rewrite ES in E. cbn in E.
    destruct (decide (Exists _ stripped)) as [Hex|Hnex].
    + split; [by apply (StripSymbols_negated_A _ _ ES)|congruence].
    + destruct HT as (out&HT&_). congruence.
  - left. split; [done|]. unfold Assemble in E.
    rewrite Parse_invalid in E by done. cbn in E. congruence.
Qed.

Lemma Assemble_failures_witness :
  (Exists (λ line, is_ErrorInstruction (ParseInstruction line) = true)
          ["@1"; "D=-A"]
   ∧ KeyError "-A" = AssemblerError (join LF (error_report ["@1"; "D=-A"])))
  ∨ (Forall (λ line, is_ErrorInstruction (ParseInstruction line) = false)
            ["@1"; "D=-A"]
     ∧ Exists (λ i, is_negated_A i = true) (ParseInstruction <$> ["@1"; "D=-A"])
     ∧ KeyError "-A" = KeyError "-A").
Proof. apply (Assemble_failures LF ["@1"; "D=-A"]). by vm_compute. Defined.

(** ** Blank lines and comments *)

Lemma foldl_filter_neutral {S} (step : S → Instruction → S)
    (P : Instruction → Prop) `{!∀ i, Decision (P i)}
    (st : S) (xs : list Instruction) :
  (∀ st i, ¬ P i → step st i = st) →
  foldl step st (filter P xs) = foldl step st xs.
Proof.
  intros Hstep. revert st. induction xs as [|i xs IH]; intros st; [done|].
  rewrite filter_cons. case_decide; simpl; [done|].
  by rewrite Hstep.
Qed.

Lemma AnalyzeSymbols_without_empty (xs : list Instruction) :
  AnalyzeSymbols (filter (λ i, i ≠ EmptyInstruction) xs) = AnalyzeSymbols xs.
Proof.
  rewrite !AnalyzeSymbols_unfold. generalize InitialSymbolTable. intros t0.
  rewrite !(foldl_filter_neutral _ (λ i, i ≠ EmptyInstruction)); [done|..].
  - intros [t v] i Hi.
    destruct (decide (i = EmptyInstruction)) as [->|Hne]; [done|by destruct Hi].
  - intros [t v] i Hi.
    destruct (decide (i = EmptyInstruction)) as [->|Hne]; [done|by destruct Hi].
Qed.

Lemma StripSymbols_loop_without_empty (t : gmap string Z) (xs : list Instruction) :
  StripSymbols_loop t (filter (λ i, i ≠ EmptyInstruction) xs)
  = StripSymbols_loop t xs.
Proof.
  induction xs as [|i xs IH]; [done|].
  rewrite filter_cons. case_decide as Hi.
  - cbn [StripSymbols_loop]. by rewrite IH.
  - rewrite IH.
    destruct (decide (i = EmptyInstruction)) as [->|Hne]; [|by destruct Hi].
    cbn. by destruct (StripSymbols_loop t xs).
Qed.

Lemma filter_fmap_ParseInstruction (lines : list string) :
  ParseInstruction <$>
    filter (λ line, ParseInstruction line ≠ EmptyInstruction) lines
  = filter (λ i, i ≠ EmptyInstruction) (ParseInstruction <$> lines).
Proof.
  induction lines as [|line lines IH]; [done|].
  rewrite fmap_cons, !filter_cons. case_decide; [|done].
  by rewrite fmap_cons, IH.
Qed.

(** X13: blank lines and lines that hold a comment only do not change what a
    program is assembled to: symbol elimination gives the same result without
    the empty instructions, and so does the assembler for a program without
    invalid lines. *)
Theorem Assemble_without_empty_lines (linesep : string) (program_lines : list string) :
  let code_lines :=
    filter (λ line, ParseInstruction line ≠ EmptyInstruction) program_lines in
  StripSymbols (ParseInstruction <$> code_lines)
  = StripSymbols (ParseInstruction <$> program_lines)
  ∧ (Forall (λ line, is_ErrorInstruction (ParseInstruction line) = false)
            program_lines →
     Assemble linesep code_lines = Assemble linesep program_lines).
Proof.
  intros code_lines.
  assert (StripSymbols (ParseInstruction <$> code_lines)
          = StripSymbols (ParseInstruction <$> program_lines)) as ES.
  { unfold code_lines.
    rewrite filter_fmap_ParseInstruction.
    unfold StripSymbols.
    by rewrite AnalyzeSymbols_without_empty, StripSymbols_loop_without_empty. }
  split; [done|]. intros Hvalid. unfold Assemble.
  rewrite !Parse_valid; [|done|].
  - cbn. by rewrite ES.
  - unfold code_lines. apply Forall_forall. intros line [_ Hin]%list_elem_of_filter.
    rewrite Forall_forall in Hvalid. by apply Hvalid.
Qed.

Lemma Assemble_without_empty_lines_witness :
  StripSymbols (ParseInstruction <$>
    filter (λ line, ParseInstruction line ≠ EmptyInstruction)
           ["// start"; "@i"; ""; "M=1"])
  = StripSymbols (ParseInstruction <$> ["// start"; "@i"; ""; "M=1"])
  ∧ Assemble LF (filter (λ line, ParseInstruction line ≠ EmptyInstruction)
                        ["// start"; "@i"; ""; "M=1"])
    = Assemble LF ["// start"; "@i"; ""; "M=1"].
Proof.
  destruct (Assemble_without_empty_lines LF ["// start"; "@i"; ""; "M=1"])
    as [HS HA].
  split; [exact HS|]. apply HA.
  apply (bool_decide_unpack _). by vm_compute.
Defined.

(** ** References to symbols *)

(** X14: an addressing instruction that refers to a label is replaced by one
    that holds the number of addressing and compute instructions before the
    last declaration of the label, which is the position in the result of the
    instruction that follows the declaration; the reference may come before
    the declaration or after it. *)
Theorem StripSymbols_label_reference
    (pre post pre' post' out : list Instruction) (s : string) :
  pre ++ AInstruction (VStr s) :: post = pre' ++ LInstruction s :: post' →
  s ∉ labels post' →
  StripSymbols (pre ++ AInstruction (VStr s) :: post) = Ok out →
  out !! length (filter encodable pre)
  = Some (AInstruction (VInt (instruction_count pre'))).
Proof.
  intros Hxs Hlast E.
  destruct (StripSymbols_resolved (pre ++ AInstruction (VStr s) :: post))
    as (out'&E'&Hout&_).
  assert (out' = out) as -> by congruence.
  rewrite filter_app, filter_cons, decide_True in Hout by done.
  destruct (Forall2_lookup_l _ _ _ (length (filter encodable pre))
              (AInstruction (VStr s)) Hout) as (o&Ho&a&Ha&->).
  { by rewrite list_lookup_middle. }
  rewrite Ho. do 3 f_equal.
  rewrite Hxs, AnalyzeSymbols_label in Ha by done. congruence.
Qed.

Lemma StripSymbols_label_reference_witness :
  [CInstruction "D" "M" ""; AInstruction (VInt 3); CInstruction "" "D" "JGT";
   CInstruction "M" "D" ""]
    !! length (filter encodable [CInstruction "D" "M" ""])
  = Some (AInstruction (VInt (instruction_count
      [CInstruction "D" "M" ""; AInstruction (VStr "END");
       CInstruction "" "D" "JGT"]))).
Proof.
  apply (StripSymbols_label_reference
           [CInstruction "D" "M" ""]
           [CInstruction "" "D" "JGT"; LInstruction "END"; CInstruction "M" "D" ""]
           [CInstruction "D" "M" ""; AInstruction (VStr "END");
            CInstruction "" "D" "JGT"]
           [CInstruction "M" "D" ""]
           _ "END").
  - reflexivity.
  - by vm_compute.
  - by vm_compute.
Defined.

Lemma app_cons_split {A} (pre1 post1 pre2 post2 : list A) (x y : A) :
  pre1 ++ x :: post1 = pre2 ++ y :: post2 → x ≠ y →
  (∃ m, pre2 = pre1 ++ x :: m) ∨ (∃ m, pre1 = pre2 ++ y :: m).
Proof.
  revert pre2. induction pre1 as [|a pre1 IH]; intros [|b pre2] E Hne;
    simplify_eq/=; eauto.
  destruct (IH pre2 H0 Hne) as [[m ->]|[m ->]]; eauto.
Qed.

Lemma difference_grows (D R M : gset string) (s : string) :
  s ∉ D → s ∉ R → R ∖ D ⊂ (R ∪ ({[s]} ∪ M)) ∖ D.
Proof.
  intros HD HR. split; [set_solver|].
  intros Hsub. apply HR.
  assert (s ∈ (R ∪ ({[s]} ∪ M)) ∖ D) as Hin by set_solver.
  apply Hsub in Hin. set_solver.
Qed.

Lemma new_symbols_grow (xs pre m : list Instruction) (s : string) :
  s ∉ dom InitialSymbolTable → s ∉ labels xs → s ∉ symbol_refs pre →
  (size (new_symbols xs pre)
   < size (new_symbols xs (pre ++ AInstruction (VStr s) :: m)))%nat.
Proof.
  intros Hi Hl Hpre. apply subset_size. unfold new_symbols.
  rewrite symbol_refs_app, symbol_refs_cons.
  apply difference_grows; [|done]. by apply not_elem_of_union.
Qed.

Lemma new_symbols_elem (xs : list Instruction) (s : string) :
  s ∈ new_symbols xs xs ↔
  s ∈ symbol_refs xs ∧ (s ∉ dom InitialSymbolTable) ∧ (s ∉ labels xs).
Proof.
  unfold new_symbols. rewrite elem_of_difference, not_elem_of_union. done.
Qed.

(** X15: the symbols that are neither predefined nor labels get addresses
    from 16 on, one for each: two such symbols never share an address, and
    the addresses are below 16 plus the number of these symbols. *)
Theorem AnalyzeSymbols_variables_distinct
    (xs : list Instruction) (s1 s2 : string) (a1 a2 : Z) :
  s1 ∈ new_symbols xs xs → s2 ∈ new_symbols xs xs →
  AnalyzeSymbols xs !! s1 = Some a1 → AnalyzeSymbols xs !! s2 = Some a2 →
  16 ≤ a1 < 16 + Z.of_nat (size (new_symbols xs xs))
  ∧ (a1 = a2 → s1 = s2).
Proof.
  intros (Hr1&Hi1&Hl1)%new_symbols_elem (Hr2&Hi2&Hl2)%new_symbols_elem E1 E2.
  destruct (symbol_refs_first_reference xs s1 Hr1) as (pre1&post1&Hxs1&Hpre1).
  destruct (symbol_refs_first_reference xs s2 Hr2) as (pre2&post2&Hxs2&Hpre2).
  pose proof (AnalyzeSymbols_variable pre1 post1 s1) as E1'. cbv zeta in E1'.
  rewrite <-Hxs1 in E1'. rewrite (E1' Hl1 Hi1 Hpre1) in E1.
  pose proof (AnalyzeSymbols_variable pre2 post2 s2) as E2'. cbv zeta in E2'.
  rewrite <-Hxs2 in E2'. rewrite (E2' Hl2 Hi2 Hpre2) in E2.
  injection E1 as <-. injection E2 as <-. clear E1' E2'.
  split.
  - assert (size (new_symbols xs pre1) < size (new_symbols xs xs))%nat; [|lia].
    apply new_symbols_size_lt with s1; [done..|].
    rewrite Hxs1, symbol_refs_app. apply union_subseteq_l.
  - intros Ha. destruct (decide (s1 = s2)) as [|Hne]; [done|]. exfalso.
    assert (AInstruction (VStr s1) ≠ AInstruction (VStr s2)) as Hne' by congruence.
    pose proof Hxs2 as Hsplit. rewrite Hxs1 in Hsplit at 1.
    destruct (app_cons_split _ _ _ _ _ _ Hsplit Hne') as [[m Hm]|[m Hm]].
    + pose proof (new_symbols_grow xs pre1 m s1 Hi1 Hl1 Hpre1) as Hlt.
      rewrite <-Hm in Hlt. lia.
    + pose proof (new_symbols_grow xs pre2 m s2 Hi2 Hl2 Hpre2) as Hlt.
      rewrite <-Hm in Hlt. lia.
Qed.

Lemma AnalyzeSymbols_variables_distinct_witness :
  16 ≤ 17 < 16 + Z.of_nat (size (new_symbols
      [AInstruction (VStr "i"); AInstruction (VStr "j"); AInstruction (VStr "i")]
      [AInstruction (VStr "i"); AInstruction (VStr "j"); AInstruction (VStr "i")]))
  ∧ (17 = 16 → "j" = "i").
Proof.
  apply (AnalyzeSymbols_variables_distinct
           [AInstruction (VStr "i"); AInstruction (VStr "j"); AInstruction (VStr "i")]
           "j" "i" 17 16).
  - apply (bool_decide_unpack _). by vm_compute.
  - apply (bool_decide_unpack _). by vm_compute.
  - by vm_compute.
  - by vm_compute.
Defined.

(** ** The grammar of addressing instructions, as implemented *)

Lemma is_symbol_not_digits (g : string) : is_symbol g = true → isdigit g = false.
Proof.
  destruct g as [|c g]; [done|]. simpl. intros [Hc _]%andb_true_iff.
  rewrite sym_start_not_digit in Hc. apply andb_true_iff in Hc as [_ Hc].
  by destruct (is_digit c).
Qed.

Lemma ParseInstruction_Address_Parse (line : string) (v : value) :
  ParseInstruction line = AInstruction v
  ↔ AInstruction_Parse line = Some (AInstruction v).
Proof.
  split.
  - intros E.
    destruct (ParseInstruction_cases line)
      as [(v'&E'&EA)|[_ [(m&E'&_)|[_ [(g&E'&_)|[_ [[_ E']|[_ E']]]]]]]];
      try congruence.
    destruct m as [[??]?]. simpl in E'. congruence.
  - intros E. unfold ParseInstruction, _INSTRUCTIONS, ParseInstruction_loop.
    by rewrite E.
Qed.

(** X6: a line is classified as an addressing instruction exactly when,
    without its comment and surrounding white space, it is "@" followed by
    digits that denote a number below 2^15, which the instruction then holds,
    or by a symbol, or by nothing, the instruction then holding the symbol or
    the empty string. *)
Theorem ParseInstruction_Address (line : string) (v : value) :
  ParseInstruction line = AInstruction v
  ↔ ∃ g, strip (RemoveTrailingComment line) = "@" +:+ g
         ∧ ((isdigit g = true ∧ 0 ≤ int g < 2 ^ 15 ∧ v = VInt (int g))
            ∨ (is_symbol g = true ∧ v = VStr g)
            ∨ (g = "" ∧ v = VStr "")).
Proof.
  rewrite ParseInstruction_Address_Parse, AInstruction_Parse_grammar.
  destruct (strip (RemoveTrailingComment line)) as [|c g].
  { split; [done|]. by intros (g&?&_). }
  destruct (decide (c = "@"%char)) as [->|Hc]; last first.
  { split; [by repeat case_match|]. intros (g'&[= ? _]&_). done. }
  split.
  - intros E. exists g. split; [done|].
    destruct (isdigit g) eqn:Ed.
    + case_bool_decide; [|done]. injection E as <-. auto.
    + destruct (is_symbol g) eqn:Es; simpl in E.
      * injection E as <-. auto.
      * case_bool_decide; [|done]. injection E as <-. subst. auto.
  - intros (g'&Hg&H). rewrite string_app_cons, string_app_nil_l in Hg.
    injection Hg as <-. destruct H as [(Ed&Hr&->)|[(Es&->)|(->&->)]].
    + rewrite Ed. by rewrite bool_decide_eq_true_2.
    + rewrite (is_symbol_not_digits g Es). by rewrite Es.
    + reflexivity.
Qed.

(** ** The source text of an instruction *)

Lemma digit_value_pretty_N_char (d : N) :
  (d < 10)%N → digit_value (pretty_N_char d) = Z.of_N d
               ∧ is_digit (pretty_N_char d) = true.
Proof.
  intros Hd.
  assert (d = 0 ∨ d = 1 ∨ d = 2 ∨ d = 3 ∨ d = 4 ∨ d = 5 ∨ d = 6 ∨ d = 7
          ∨ d = 8 ∨ d = 9)%N as H by lia.
  by repeat destruct H as [->|H]; subst.
Qed.

Lemma pretty_N_go_int (x : N) (s : string) :
  int_go 0 (pretty_N_go x s) = int_go (Z.of_N x) s
  ∧ string_forall is_digit (pretty_N_go x s) = string_forall is_digit s
  ∧ (s ≠ "" → pretty_N_go x s ≠ "").
Proof.
  revert s. induction (N.lt_wf_0 x) as [x _ IH]; intros s.
  destruct (decide (x = 0)%N) as [->|Hx]; [by rewrite pretty_N_go_0|].
  rewrite pretty_N_go_step by lia.
  destruct (IH (x `div` 10)%N) with (String (pretty_N_char (x `mod` 10)) s)
    as (Hint&Hdigits&Hne).
  { apply N.div_lt; lia. }
  destruct (digit_value_pretty_N_char (x `mod` 10)%N) as [Hv Hd].
  { apply N.mod_lt. lia. }
  split_and!.
  - rewrite Hint. cbn [int_go]. rewrite Hv. f_equal.
    rewrite (N.div_mod x 10) at 3 by lia. lia.
  - rewrite Hdigits. cbn [string_forall]. by rewrite Hd.
  - intros _. by apply Hne.
Qed.

(** The decimal digits of a natural number denote the number. *)
Lemma int_pretty (n : Z) :
  0 ≤ n → isdigit (pretty n) = true ∧ int (pretty n) = n.
Proof.
  intros Hn. destruct n as [|p|p]; [done| |lia].
  change (pretty (Z.pos p)) with (pretty_N_go (N.pos p) "").
  destruct (pretty_N_go_int (N.pos p) "") as (Hint&Hdigits&_).
  split; [|by rewrite <-(N2Z.inj_pos p)].
  assert (pretty_N_go (N.pos p) "" ≠ "") as Hne.
  { rewrite pretty_N_go_step by lia.
    by apply (pretty_N_go_int (N.pos p `div` 10)%N). }
  unfold isdigit. destruct (pretty_N_go (N.pos p) ""); done.
Qed.

Lemma RemoveTrailingComment_plain (s : string) :
  string_forall plain_char s = true → RemoveTrailingComment s = s.
Proof.
  induction s as [|c s IH]; [done|]. simpl. intros [Hc Hs]%andb_true_iff.
  rewrite RemoveTrailingComment_cons, IH by done.
  destruct (String.prefix "//" (String c s)) eqn:E; [|done].
  apply prefix_comment in E as [r [= -> _]]. done.
Qed.

Lemma rstrip_plain (s : string) :
  string_forall plain_char s = true → rstrip s = s.
Proof.
  induction s as [|c s IH]; [done|]. simpl. intros [Hc Hs]%andb_true_iff.
  rewrite IH by done. destruct s; [|done].
  apply andb_true_iff in Hc as [Hc _]. by destruct (Ascii.is_space c).
Qed.

Lemma strip_plain (s : string) :
  string_forall plain_char s = true → strip (RemoveTrailingComment s) = s.
Proof.
  intros Hs. rewrite RemoveTrailingComment_plain by done. unfold strip.
  assert (lstrip s = s) as ->; [|by apply rstrip_plain].
  destruct s as [|c s]; [done|]. simpl in *.
  apply andb_true_iff in Hs as [[Hc _]%andb_true_iff _].
  by destruct (Ascii.is_space c).
Qed.

Lemma sym_char_plain (c : ascii) : sym_char c = true → plain_char c = true.
Proof. destruct c as [[] [] [] [] [] [] [] []]; by vm_compute. Qed.

Lemma string_forall_impl (P Q : ascii → bool) (s : string) :
  (∀ c, P c = true → Q c = true) →
  string_forall P s = true → string_forall Q s = true.
Proof.
  intros HPQ. induction s as [|c s IH]; [done|]. simpl.
  intros [Hc Hs]%andb_true_iff. by rewrite HPQ, IH.
Qed.

Lemma is_symbol_plain (g : string) :
  is_symbol g = true → string_forall plain_char g = true.
Proof.
  destruct g as [|c g]; [done|]. simpl. intros [Hc Hg]%andb_true_iff.
  rewrite sym_char_plain; [|unfold sym_char; by rewrite Hc].
  apply (string_forall_impl sym_char); [apply sym_char_plain|done].
Qed.

Lemma isdigit_plain (g : string) :
  isdigit g = true → string_forall plain_char g = true.
Proof.
  intros Hg. apply (string_forall_impl is_digit).
  - intros c Hc. apply sym_char_plain. unfold sym_char. rewrite Hc.
    by destruct (sym_start c).
  - by destruct g.
Qed.

Lemma CInstruction_text_plain (d c j : string) :
  d ∈ destinations → c ∈ _RE_COMP_alternatives → j ∈ jumps →
  string_forall plain_char (CInstruction_text d c j) = true.
Proof.
  intros Hd Hc Hj.
  assert (Forall (λ d, Forall (λ c, Forall (λ j,
    string_forall plain_char (CInstruction_text d c j) = true)
    jumps) _RE_COMP_alternatives) destinations) as H.
  { apply (bool_decide_unpack _). by vm_compute. }
  rewrite Forall_forall in H. specialize (H _ Hd).
  rewrite Forall_forall in H. specialize (H _ Hc).
  rewrite Forall_forall in H. by apply H.
Qed.

Lemma Instruction_text_plain (i : Instruction) :
  of_grammar i → string_forall plain_char (Instruction_text i) = true.
Proof.
  destruct i as [[n|s]|d c j|s| | |]; simpl; try done.
  - intros Hn. rewrite string_forall_app. apply andb_true_iff. split; [done|].
    apply isdigit_plain, int_pretty. lia.
  - intros Hs. rewrite string_forall_app. apply andb_true_iff. split; [done|].
    by apply is_symbol_plain.
  - intros (?&?&?). by apply CInstruction_text_plain.
  - intros Hs. rewrite !string_forall_app, (is_symbol_plain s) by done.
    reflexivity.
Qed.

(** X16: parsing the source text of an instruction of the grammar gives the
    instruction back, also with white space around the text and a comment
    after it: every line that is this text without its comment and
    surrounding white space is classified as the instruction, and the text
    itself is such a line. *)
Theorem ParseInstruction_text (i : Instruction) (line : string) :
  of_grammar i →
  (strip (RemoveTrailingComment line) = Instruction_text i →
   ParseInstruction line = i)
  ∧ ParseInstruction (Instruction_text i) = i.
Proof.
  intros Hi.
  assert (∀ line, strip (RemoveTrailingComment line) = Instruction_text i →
                  ParseInstruction line = i) as H.
  { clear line. intros line Hs.
    destruct i as [[n|s]|d c j|s| | |]; simpl in Hi, Hs; try done.
    - apply ParseInstruction_Address_Parse. rewrite AInstruction_Parse_grammar, Hs.
      rewrite string_app_cons, string_app_nil_l.
      destruct (int_pretty n) as [-> ->]; [lia|].
      by rewrite bool_decide_eq_true_2.
    - apply ParseInstruction_Address_Parse. rewrite AInstruction_Parse_grammar, Hs.
      rewrite string_app_cons, string_app_nil_l.
      by rewrite (is_symbol_not_digits s Hi), Hi.
    - destruct Hi as (Hd&Hc&Hj).
      destruct (CInstruction_text_parsed d c j Hd Hc Hj) as [EA EC].
      unfold ParseInstruction, _INSTRUCTIONS, ParseInstruction_loop,
        AInstruction_Parse, CInstruction_Parse.
      rewrite Hs, EA. by destruct (_RE_CINSTRUCTION _); simplify_eq/=.
    - assert (_RE_LINSTRUCTION (strip (RemoveTrailingComment line)) = Some s) as EL.
      { apply _RE_LINSTRUCTION_Some; [apply strip_rstripped|done]. }
      unfold ParseInstruction, _INSTRUCTIONS, ParseInstruction_loop,
        AInstruction_Parse, CInstruction_Parse, LInstruction_Parse.
      rewrite EL, Hs.
      assert (_RE_AINSTRUCTION (String "(" (s +:+ ")")) = None) as E1 by reflexivity.
      assert (_RE_CINSTRUCTION (String "(" (s +:+ ")")) = None) as E2 by reflexivity.
      rewrite string_app_cons, string_app_nil_l. by rewrite E1, E2.
    - unfold ParseInstruction, _INSTRUCTIONS, ParseInstruction_loop,
        AInstruction_Parse, CInstruction_Parse, LInstruction_Parse,
        EmptyInstruction_Parse. rewrite Hs. reflexivity. }
  split; [apply H|]. apply H, strip_plain. by apply Instruction_text_plain.
Qed.

Lemma ParseInstruction_text_witness :
  (strip (RemoveTrailingComment "  @1234   // set A") = Instruction_text (AInstruction (VInt 1234)) →
   ParseInstruction "  @1234   // set A" = AInstruction (VInt 1234))
  ∧ ParseInstruction (Instruction_text (AInstruction (VInt 1234)))
    = AInstruction (VInt 1234).
Proof.
  apply (ParseInstruction_text (AInstruction (VInt 1234)) "  @1234   // set A").
  simpl. lia.
Defined.

(** ** Encoding a program *)

Lemma ToBinary_Ok_symbol_free (i : Instruction) (b : string) :
  ToBinary i = Ok b → symbol_free i.
Proof. intros E. destruct i as [[n|s]| | | | |]; try done. no_str_encoding. Qed.

(** X17: [TranslateToBinary] succeeds only on addressing instructions that
    hold integers and on compute instructions: a symbol or a label that is
    left makes it fail.  When it succeeds it returns one string of 16 binary
    digits for each instruction, in their order. *)
Theorem TranslateToBinary_Ok (xs : list Instruction) (out : list string) :
  TranslateToBinary xs = Ok out →
  Forall symbol_free xs
  ∧ Forall2 (λ i b, ToBinary i = Ok b) xs out
  ∧ Forall is_word out.
Proof.
  unfold TranslateToBinary. revert out.
  induction xs as [|i xs IH]; intros out E.
  { injection E as <-. by split_and!; constructor. }
  cbn [result_mapM] in E.
  destruct (ToBinary i) as [b|e] eqn:Eb; [|done]. cbn in E.
  destruct (result_mapM ToBinary xs) as [bs|e] eqn:Ebs; [|done]. cbn in E.
  injection E as <-. destruct (IH bs eq_refl) as (Hfree&Hout&Hwords).
  split_and!; constructor; try done.
  - by eapply ToBinary_Ok_symbol_free.
  - by apply ToBinary_word in Eb as [? _].
Qed.

Lemma TranslateToBinary_Ok_witness :
  Forall symbol_free [AInstruction (VInt 5); CInstruction "D" "A" ""]
  ∧ Forall2 (λ i b, ToBinary i = Ok b)
      [AInstruction (VInt 5); CInstruction "D" "A" ""]
      ["0000000000000101"; "1110110000010000"]
  ∧ Forall is_word ["0000000000000101"; "1110110000010000"].
Proof. apply TranslateToBinary_Ok. by vm_compute. Defined.

(** X18: a line that holds "@" and the decimal digits of a number from 0 to
    2^15 - 1 is assembled to "0" and the 15 bits of the number. *)
Theorem Assemble_literal (linesep : string) (n : Z) :
  0 ≤ n < 2 ^ 15 →
  Assemble linesep ["@" +:+ pretty n] = Ok ["0" +:+ binary_be 15 n].
Proof.
  intros Hn.
  assert (ParseInstruction ("@" +:+ pretty n) = AInstruction (VInt n)) as EP.
  { destruct (int_pretty n) as [Hd Hi]; [lia|].
    apply ParseInstruction_Address_Parse. rewrite AInstruction_Parse_grammar.
    rewrite strip_plain.
    - rewrite string_app_cons, string_app_nil_l, Hd, Hi.
      by rewrite bool_decide_eq_true_2.
    - rewrite string_forall_app. apply andb_true_iff. split; [done|].
      by apply isdigit_plain. }
  unfold Assemble. rewrite Parse_valid.
  - cbn [fmap list_fmap mbind result_bind]. rewrite EP.
    unfold StripSymbols. rewrite StripSymbols_loop_symbol_free by (by repeat constructor).
    unfold TranslateToBinary. cbn [result_mapM mbind result_bind ToBinary AInstruction_ToBinary].
    by rewrite ToBinary15_binary_be.
  - constructor; [|done]. by rewrite EP.
Qed.

Lemma Assemble_literal_witness :
  Assemble LF ["@" +:+ pretty 24576] = Ok ["0" +:+ binary_be 15 24576].
Proof. apply (Assemble_literal LF 24576). lia. Defined.

(** * The line classifier *)

(** ** Removing the comment *)

Lemma RemoveTrailingComment_comment_free (line a b : string) :
  RemoveTrailingComment line ≠ a +:+ "//" +:+ b.
Proof.
  intros E.
  assert (RemoveTrailingComment (RemoveTrailingComment line)
          = RemoveTrailingComment line) as Hidem.
  { destruct (RemoveTrailingComment_split (RemoveTrailingComment line))
      as (rest&Hline&[->|Hrest]).
    - by rewrite string_app_nil_r in Hline.
    - apply prefix_comment in Hrest as [c ->].
      destruct (RemoveTrailingComment_split line) as (rest&Hl&_).
      rewrite Hline, string_app_assoc in Hl.
      destruct (RemoveTrailingComment_first _ _ _ Hl) as [r Hr].
      rewrite Hline in Hr at 2.
      apply (f_equal String.length) in Hr.
      rewrite !string_length_app in Hr. simpl in Hr. lia. }
  destruct (RemoveTrailingComment_first _ _ _ E) as [r Hr].
  rewrite Hidem, E in Hr.
  apply (f_equal String.length) in Hr.
  rewrite !string_length_app in Hr. simpl in Hr. lia.
Qed.

(** The comment remover cuts the line where [without_comment] says. *)
Lemma without_comment_RemoveTrailingComment (line code : string) :
  without_comment line code ↔ RemoveTrailingComment line = code.
Proof.
  split.
  - intros [(comment&E&Hmin)|[-> Hfree]].
    + destruct (RemoveTrailingComment_first _ _ _ E) as [r Hr].
      destruct (RemoveTrailingComment_split line) as (rest&Hline&[->|Hrest]).
      * rewrite string_app_nil_r in Hline. rewrite <-Hline in Hr.
        rewrite Hr in E at 1. apply (f_equal String.length) in E.
        rewrite !string_length_app in E. simpl in E. lia.
      * apply prefix_comment in Hrest as [c ->].
        specialize (Hmin _ _ Hline).
        assert (r = "") as ->.
        { apply (f_equal String.length) in Hr.
          rewrite string_length_app in Hr. destruct r; [done|]. simpl in Hr. lia. }
        by rewrite string_app_nil_r in Hr.
    + destruct (RemoveTrailingComment_split line) as (rest&Hline&[->|Hrest]).
      * by rewrite string_app_nil_r in Hline.
      * apply prefix_comment in Hrest as [c ->]. by apply Hfree in Hline.
  - intros <-.
    destruct (RemoveTrailingComment_split line) as (rest&Hline&[->|Hrest]).
    + right. rewrite string_app_nil_r in Hline. split; [done|].
      intros a b. rewrite Hline. apply RemoveTrailingComment_comment_free.
    + left. apply prefix_comment in Hrest as [c ->]. exists c. split; [done|].
      intros a b E. destruct (RemoveTrailingComment_first _ _ _ E) as [r ->].
      rewrite string_length_app. lia.
Qed.

(** ** Removing the white space *)

Lemma lstrip_app_space (ws t : string) :
  string_forall Ascii.is_space ws = true → lstrip (ws +:+ t) = lstrip t.
Proof.
  induction ws as [|c ws IH]; [done|]. simpl.
  intros [-> Hws]%andb_true_iff. by apply IH.
Qed.

Lemma lstrip_lstripped (s : string) : lstripped s → lstrip s = s.
Proof. destruct s as [|c r]; [done|]. intros H. simpl. by rewrite (H c r). Qed.

Lemma lstrip_split (s : string) :
  ∃ ws, s = ws +:+ lstrip s ∧ string_forall Ascii.is_space ws = true
        ∧ lstripped (lstrip s).
Proof.
  induction s as [|c s (ws&E&Hws&Hl)].
  { exists "". split_and!; [done..|]. by intros ??. }
  simpl. destruct (Ascii.is_space c) eqn:Ec.
  - exists (String c ws). rewrite string_app_cons, <-E. simpl.
    by rewrite Ec, Hws.
  - exists "". split_and!; [done..|]. by intros ?? [= <- _].
Qed.

Lemma rstrip_app_space (s ws : string) :
  string_forall Ascii.is_space ws = true → rstrip (s +:+ ws) = rstrip s.
Proof.
  intros Hws. induction s as [|c s IH].
  - rewrite string_app_nil_l. by apply rstrip_empty.
  - rewrite string_app_cons. cbn [rstrip]. by rewrite IH.
Qed.

Lemma rstripped_tail (c : ascii) (s : string) :
  rstripped (String c s) → s ≠ "" → rstripped s.
Proof. intros H _ a x ->. by apply (H (String c a) x). Qed.

Lemma rstrip_id (s : string) : rstripped s → rstrip s = s.
Proof.
  induction s as [|c s IH]; [done|]. intros H. cbn [rstrip].
  destruct s as [|d s].
  - simpl. by rewrite (H "" c).
  - rewrite IH by (by apply (rstripped_tail c)). done.
Qed.

Lemma rstrip_split (s : string) :
  ∃ ws, s = rstrip s +:+ ws ∧ string_forall Ascii.is_space ws = true.
Proof.
  induction s as [|c s (ws&E&Hws)]; [by exists ""|].
  cbn [rstrip]. destruct (rstrip s) as [|d r] eqn:Er.
  - rewrite string_app_nil_l in E. subst ws.
    destruct (Ascii.is_space c) eqn:Ec.
    + exists (String c s). simpl. by rewrite Ec, Hws.
    + exists s. by rewrite string_app_cons, string_app_nil_l.
  - exists ws. by rewrite string_app_cons, <-E.
Qed.

Lemma rstrip_lstripped (s : string) : lstripped s → lstripped (rstrip s).
Proof.
  destruct s as [|c s]; [done|]. intros H x r. cbn [rstrip].
  specialize (H c s eq_refl).
  destruct (rstrip s); [|by intros [= <- _]].
  rewrite H. by intros [= <- _].
Qed.

(** [strip] removes the white space where [without_white_space] says. *)
Lemma without_white_space_strip (code s : string) :
  without_white_space code s ↔ strip code = s.
Proof.
  split.
  - intros (ws1&ws2&->&H1&H2&Hl&Hr). unfold strip.
    rewrite lstrip_app_space by done. destruct s as [|c r].
    + rewrite string_app_nil_l. apply rstrip_empty. by apply lstrip_forall.
    + rewrite string_app_cons. simpl lstrip. rewrite (Hl c r) by done.
      rewrite <-string_app_cons, rstrip_app_space by done. by apply rstrip_id.
  - intros <-. unfold strip.
    destruct (lstrip_split code) as (ws1&E1&H1&Hl).
    destruct (rstrip_split (lstrip code)) as (ws2&E2&H2).
    exists ws1, ws2. split_and!; [|done|done| |].
    + by rewrite <-E2.
    + by apply rstrip_lstripped.
    + apply rstrip_rstripped.
Qed.

(** The parsers work on the stripped text of the line. *)
Lemma stripped_text_strip (line s : string) :
  stripped_text line s ↔ strip (RemoveTrailingComment line) = s.
Proof.
  split.
  - intros (code&Hc%without_comment_RemoveTrailingComment
               &Hs%without_white_space_strip). by subst.
  - intros E. exists (RemoveTrailingComment line). split.
    + by apply without_comment_RemoveTrailingComment.
    + by apply without_white_space_strip.
Qed.

(** ** The grammars and the parsers *)

(** The addressing parser accepts the texts of [Address_grammar], and "@"
    alone, which it takes for the symbol without characters. *)
Lemma Address_grammar_Parse (line : string) (v : value) :
  AInstruction_Parse line = Some (AInstruction v)
  ↔ Address_grammar (strip (RemoveTrailingComment line)) v
    ∨ (strip (RemoveTrailingComment line) = "@" ∧ v = VStr "").
Proof.
  rewrite AInstruction_Parse_grammar. unfold Address_grammar.
  destruct (strip (RemoveTrailingComment line)) as [|c g].
  { split; [done|]. by intros [(g&?&_)|[? _]]. }
  destruct (decide (c = "@"%char)) as [->|Hc]; last first.
  { split; [by repeat case_match|]. intros [(g'&[= ? _]&_)|[[= ? _] _]]; done. }
  split.
  - intros E. destruct (isdigit g) eqn:Ed.
    + case_bool_decide; [|done]. injection E as <-. left. exists g. auto.
    + destruct (is_symbol g) eqn:Es; simpl in E.
      * injection E as <-. left. exists g. auto.
      * case_bool_decide; [|done]. injection E as <-. subst. by right.
  - intros [(g'&Hg&H)|[[= ->] ->]]; [|reflexivity].
    rewrite string_app_cons, string_app_nil_l in Hg.
    injection Hg as <-. destruct H as [(Ed&Hr&->)|(Es&->)].
    + rewrite Ed. by rewrite bool_decide_eq_true_2.
    + rewrite (is_symbol_not_digits g Es). by rewrite Es.
Qed.

Lemma Compute_grammar_Some (s : string) (m : option string * string * option string) :
  rstripped s → _RE_CINSTRUCTION s = Some m →
  ∃ dest comp jump, Compute_grammar s dest comp jump
                    ∧ CInstruction__ParseMatch m = CInstruction dest comp jump.
Proof.
  intros Hs Hm. destruct m as [[g1 g2] g3].
  apply head_Some_elem_of, _RE_CINSTRUCTION_elem in Hm as (E&Hd&Hc&Hj); [|done].
  exists (group_or_empty g1), g2, (group_or_empty g3). by split.
Qed.

Lemma Compute_grammar_Parse (line dest comp jump : string) :
  Compute_grammar (strip (RemoveTrailingComment line)) dest comp jump →
  ParseInstruction line = CInstruction dest comp jump.
Proof.
  intros (Hd&Hc&Hj&Hs).
  destruct (CInstruction_text_parsed dest comp jump Hd Hc Hj) as [EA EC].
  unfold ParseInstruction, _INSTRUCTIONS, ParseInstruction_loop,
    AInstruction_Parse, CInstruction_Parse.
  rewrite Hs, EA. by destruct (_RE_CINSTRUCTION _); simplify_eq/=.
Qed.

Lemma Label_grammar_Parse (line g : string) :
  Label_grammar (strip (RemoveTrailingComment line)) g →
  ParseInstruction line = LInstruction g.
Proof.
  intros [Hs Hg].
  assert (_RE_LINSTRUCTION ("(" +:+ g +:+ ")") = Some g) as EL.
  { apply _RE_LINSTRUCTION_Some; [|done]. rewrite <-Hs. apply strip_rstripped. }
  unfold ParseInstruction, _INSTRUCTIONS, ParseInstruction_loop,
    AInstruction_Parse, CInstruction_Parse, LInstruction_Parse.
  rewrite Hs, EL.
  assert (_RE_AINSTRUCTION (String "(" (g +:+ ")")) = None) as E1 by reflexivity.
  assert (_RE_CINSTRUCTION (String "(" (g +:+ ")")) = None) as E2 by reflexivity.
  rewrite string_app_cons, string_app_nil_l. by rewrite E1, E2.
Qed.

(** The text "@" is of none of the four grammars. *)
Lemma bare_at_no_grammar :
  ¬ matches_Address "@" ∧ ¬ matches_Compute "@" ∧ ¬ matches_Label "@"
  ∧ ¬ matches_Empty "@".
Proof.
  split_and!.
  - intros (v&g&E&H). rewrite string_app_cons, string_app_nil_l in E.
    injection E as <-. by destruct H as [(?&_)|(?&_)].
  - intros (d&c&j&Hd&Hc&Hj&E).
    destruct (CInstruction_text_parsed d c j Hd Hc Hj) as [EA _].
    rewrite <-E in EA. by vm_compute in EA.
  - intros (g&E&_). by rewrite string_app_cons, string_app_nil_l in E.
  - done.
Qed.

Lemma ParseInstruction_Empty_text (line : string) :
  strip (RemoveTrailingComment line) = "" →
  ParseInstruction line = EmptyInstruction.
Proof.
  intros Hs.
  unfold ParseInstruction, _INSTRUCTIONS, ParseInstruction_loop,
    AInstruction_Parse, CInstruction_Parse, LInstruction_Parse,
    EmptyInstruction_Parse. rewrite Hs. reflexivity.
Qed.

(** ** Classification of a line *)

(** C6: classification of a line always returns an instruction.  The line
    has one stripped text: what is left when everything from its first "//"
    on is removed, and then the white space around the rest.  On this text
    the grammars are tried in the order addressing, compute, label, empty,
    and the first one that matches gives the instruction; a text of none of
    them gives the error instruction that holds the line as it was given,
    with one exception: the text "@", which is of none of the four
    grammars, is classified as the addressing instruction of the symbol
    without characters. *)
Theorem ParseInstruction_first_match (line : string) :
  ParseInstruction line ≠ PyNone
  ∧ (∃ s, stripped_text line s)
  ∧ ∀ s, stripped_text line s →
      (∀ v, Address_grammar s v → ParseInstruction line = AInstruction v)
      ∧ (∀ dest comp jump,
           ¬ matches_Address s → Compute_grammar s dest comp jump →
           ParseInstruction line = CInstruction dest comp jump)
      ∧ (∀ g, ¬ matches_Address s → ¬ matches_Compute s → Label_grammar s g →
           ParseInstruction line = LInstruction g)
      ∧ (¬ matches_Address s → ¬ matches_Compute s → ¬ matches_Label s →
         matches_Empty s → ParseInstruction line = EmptyInstruction)
      ∧ (¬ matches_Address s → ¬ matches_Compute s → ¬ matches_Label s →
         ¬ matches_Empty s → s ≠ "@" →
         ParseInstruction line = ErrorInstruction line)
      ∧ (s = "@" →
         ¬ matches_Address s ∧ ¬ matches_Compute s ∧ ¬ matches_Label s
         ∧ ¬ matches_Empty s
         ∧ ParseInstruction line = AInstruction (VStr "")).
Proof.
  split_and!.
  - destruct (ParseInstruction_cases line)
      as [(v&E&_)|[_ [(m&E&_)|[_ [(g&E&_)|[_ [[_ E]|[_ E]]]]]]]];
      rewrite E; try done.
    by destruct m as [[??]?].
  - exists (strip (RemoveTrailingComment line)). by apply stripped_text_strip.
  - intros s Hs. apply stripped_text_strip in Hs. subst s. split_and!.
    + intros v HA. apply ParseInstruction_Address_Parse, Address_grammar_Parse.
      by left.
    + intros dest comp jump _. apply Compute_grammar_Parse.
    + intros g _ _. apply Label_grammar_Parse.
    + intros _ _ _ Hs. apply ParseInstruction_Empty_text. exact Hs.
    + intros HA HC HL HE Hat.
      destruct (ParseInstruction_cases line)
        as [(v&_&EA)|[_ [(m&_&Hm)|[_ [(g&_&Hg)|[_ [[Hs _]|[_ E]]]]]]]].
      * apply Address_grammar_Parse in EA as [EA|[Hs _]]; [|done].
        destruct HA. by exists v.
      * apply Compute_grammar_Some in Hm as (d&c&j&Hm&_); [|apply strip_rstripped].
        destruct HC. by exists d, c, j.
      * apply _RE_LINSTRUCTION_Some in Hg; [|apply strip_rstripped].
        destruct HL. by exists g.
      * done.
      * done.
    + intros Hat. rewrite Hat.
      destruct bare_at_no_grammar as (HA&HC&HL&HE). split_and!; [done..|].
      apply ParseInstruction_Address_Parse, Address_grammar_Parse. by right.
Qed.

Lemma ParseInstruction_first_match_witness :
  (stripped_text "  D=M // x" "D=M"
   ∧ ¬ matches_Address "D=M"
   ∧ Compute_grammar "D=M" "D" "M" ""
   ∧ ParseInstruction "  D=M // x" = CInstruction "D" "M" "")
  ∧ (stripped_text "@" "@"
     ∧ ParseInstruction "@" = AInstruction (VStr "")).
Proof.
  assert (stripped_text "  D=M // x" "D=M") as Hs.
  { exists "  D=M ". split.
    - left. exists " x". split; [reflexivity|].
      intros a b E.
      do 6 (destruct a as [|? a]; [discriminate E|]; injection E as _ E).
      simpl. lia.
    - exists "  ", " ". split_and!; [reflexivity..| |].
      + intros c r [= <- _]. reflexivity.
      + intros a c E.
        do 2 (destruct a as [|? a]; [discriminate E|]; injection E as _ E).
        destruct a as [|? a]; [by injection E as <-|]. injection E as _ E.
        destruct a; discriminate E. }
  assert (¬ matches_Address "D=M") as HA.
  { intros (v&g&E&_). discriminate E. }
  assert (Compute_grammar "D=M" "D" "M" "") as HC.
  { split_and!; [apply (bool_decide_unpack _); reflexivity..|reflexivity]. }
  assert (stripped_text "@" "@") as Hat.
  { exists "@". split.
    - right. split; [reflexivity|]. intros a b E.
      destruct a as [|? a]; [discriminate E|]. injection E as _ E.
      destruct a; discriminate E.
    - exists "", "". split_and!; [reflexivity..| |].
      + intros c r [= <- _]. reflexivity.
      + intros a c E. destruct a as [|? a]; [by injection E as <-|].
        injection E as _ E. destruct a; discriminate E. }
  split.
  - split_and!; [done..|].
    destruct (ParseInstruction_first_match "  D=M // x") as (_&_&H).
    destruct (H "D=M" Hs) as (_&H2&_).
    exact (H2 "D" "M" "" HA HC).
  - split; [done|].
    destruct (ParseInstruction_first_match "@") as (_&_&H).
    destruct (H "@" Hat) as (_&_&_&_&_&H6).
    destruct (H6 eq_refl) as (_&_&_&_&E). exact E.
Defined.
